(** * ReadTheirs: the README mirroring tool (main.go)

    A shallow embedding of [main], [getReadme] and [downloadAssets] of
    main.go, together with the parts of the Go libraries they call, and the
    properties of the asset discovery and retrieval engine.

    Go strings are byte sequences: they are modelled by [string], whose
    characters are bytes. *)

From Stdlib Require Import String Ascii List Bool Arith ZArith Lia.
From Equations Require Import Equations.
Import ListNotations.
Open Scope string_scope.
Open Scope list_scope.

(* ===================================================================== *)
(** * Package strings *)
(* ===================================================================== *)

(** Keeps the equation of a case analysis, for the termination proofs of the
    scanning loops below. *)
Definition inspect {A : Type} (a : A) : {b : A | a = b} := exist _ a eq_refl.

Module strings.

(** [strings.CutPrefix s prefix]: the text after [prefix] when [s] starts
    with it. *)
Fixpoint CutPrefix (s prefix : string) {struct prefix} : option string :=
  match prefix, s with
  | EmptyString, _ => Some s
  | String p prefix', String c s' =>
      if Ascii.eqb p c then CutPrefix s' prefix' else None
  | String _ _, EmptyString => None
  end.

(** [strings.HasPrefix s prefix]. *)
Definition HasPrefix (s prefix : string) : bool :=
  match CutPrefix s prefix with Some _ => true | None => false end.

(** [strings.Contains s substr]: [substr] occurs at some offset of [s]. *)
Fixpoint Contains (s substr : string) : bool :=
  match s with
  | EmptyString => HasPrefix EmptyString substr
  | String _ s' => HasPrefix s substr || Contains s' substr
  end.

(** [strings.Replace s old new (-1)], that is [strings.ReplaceAll]: the
    occurrences of [old] are found from left to right, each search
    starting after the previous occurrence, and each is replaced by [new].
    With an empty [old] Go inserts [new] before every rune and at the end;
    that case is written here for one-byte runes (the program only passes
    non-empty constants for [old]). *)
Equations ReplaceAll (s old new : string) : string by wf (String.length s) lt :=
  ReplaceAll EmptyString old new :=
    match old with EmptyString => new | _ => EmptyString end;
  ReplaceAll (String c s') old new with inspect (CutPrefix (String c s') old) := {
    | exist _ (Some rest) _ with inspect (Nat.ltb (String.length rest) (S (String.length s'))) := {
        | exist _ true _ := (new ++ ReplaceAll rest old new)%string;
        | exist _ false _ := (new ++ String c (ReplaceAll s' old new))%string };
    | exist _ None _ := String c (ReplaceAll s' old new) }.
Next Obligation. apply Nat.ltb_lt. assumption. Qed.

End strings.

(* ===================================================================== *)
(** * Package regexp *)
(* ===================================================================== *)

(** The two patterns of the program are built from literals, [.], one negated
    character class, greedy [.*], alternation and capture groups.  Matching
    is on bytes: the literals of both patterns are ASCII, and no byte of a
    multi-byte rune is a newline, so [.] and [.*] consume the same text on
    bytes as on runes.

    Go returns the leftmost match and, among the matches starting there, the
    one a backtracking search finds first; [run] is that search, written
    with a continuation for what follows the sub-expression. *)

Module regexp.

Inductive class :=
| Byte (b : ascii)        (* a literal byte *)
| AnyNotNL                (* [.]: any byte but newline *)
| NoneOf (set : string).  (* [[^set]]: any byte not listed, newline included *)

Fixpoint mem (b : ascii) (set : string) : bool :=
  match set with
  | EmptyString => false
  | String c set' => Ascii.eqb b c || mem b set'
  end.

Definition newline : ascii := "010"%char.

Definition accepts (k : class) (b : ascii) : bool :=
  match k with
  | Byte c => Ascii.eqb b c
  | AnyNotNL => negb (Ascii.eqb b newline)
  | NoneOf set => negb (mem b set)
  end.

Inductive Regexp :=
| Empty
| One (k : class)
| Star (k : class)                 (* [k*], greedy *)
| Concat (r1 r2 : Regexp)
| Alternate (r1 r2 : Regexp)
| Capture (i : nat) (r : Regexp).  (* the [i]-th parenthesis *)

(** A literal text. *)
Fixpoint Lit (s : string) : Regexp :=
  match s with
  | EmptyString => Empty
  | String c s' => Concat (One (Byte c)) (Lit s')
  end.

(** The text of [s] before its suffix [rest]. *)
Definition consumed (s rest : string) : string :=
  substring 0 (String.length s - String.length rest) s.

Definition groups := list (nat * string).

Section Run.
Context {R : Type}.

(** Greedy repetition: the longest run of accepted bytes is tried first,
    then shorter ones. *)
Fixpoint star (k : class) (s : string) (cont : string -> option R) : option R :=
  match s with
  | EmptyString => cont EmptyString
  | String b s' =>
      if accepts k b then
        match star k s' cont with
        | Some r => Some r
        | None => cont s
        end
      else cont s
  end.

Fixpoint run (r : Regexp) (s : string) (g : groups)
         (cont : string -> groups -> option R) : option R :=
  match r with
  | Empty => cont s g
  | One k =>
      match s with
      | String b s' => if accepts k b then cont s' g else None
      | EmptyString => None
      end
  | Star k => star k s (fun rest => cont rest g)
  | Concat r1 r2 => run r1 s g (fun rest g' => run r2 rest g' cont)
  | Alternate r1 r2 =>
      match run r1 s g cont with
      | Some x => Some x
      | None => run r2 s g cont
      end
  | Capture i r1 =>
      run r1 s g (fun rest g' => cont rest ((i, consumed s rest) :: g'))
  end.
End Run.

(** A match of [r] starting at the first byte of [s]: the text left after
    it and the captured groups. *)
Definition match_here (r : Regexp) (s : string) : option (string * groups) :=
  run r s [] (fun rest g => Some (rest, g)).

Fixpoint group (g : groups) (i : nat) : string :=
  match g with
  | [] => EmptyString
  | (j, text) :: g' => if Nat.eqb i j then text else group g' i
  end.

Fixpoint NumSubexp (r : Regexp) : nat :=
  match r with
  | Empty | One _ | Star _ => 0
  | Concat r1 r2 | Alternate r1 r2 => NumSubexp r1 + NumSubexp r2
  | Capture _ r1 => S (NumSubexp r1)
  end.

(** The slice Go returns for one match: the whole match, then the text of
    each group. *)
Definition submatch (r : Regexp) (s rest : string) (g : groups) : list string :=
  consumed s rest :: map (group g) (seq 1 (NumSubexp r)).

Inductive piece :=
| Copied (b : ascii)             (* a byte outside every match *)
| Matched (m : list string).     (* a match, as [submatch] gives it *)

(** The successive non-overlapping matches of [r] in [s], with the bytes
    between them.  After a match the search resumes at its end; a match
    that consumes nothing lets the search advance by one byte (neither
    pattern of the program can match the empty text). *)
Equations scan (r : Regexp) (s : string) : list piece by wf (String.length s) lt :=
  scan r EmptyString with match_here r EmptyString := {
    | Some (rest, g) := [Matched (submatch r EmptyString rest g)];
    | None := [] };
  scan r (String b s') with inspect (match_here r (String b s')) := {
    | exist _ (Some (rest, g)) _
        with inspect (Nat.ltb (String.length rest) (S (String.length s'))) := {
        | exist _ true _ := Matched (submatch r (String b s') rest g) :: scan r rest;
        | exist _ false _ := Matched (submatch r (String b s') rest g) :: Copied b :: scan r s' };
    | exist _ None _ := Copied b :: scan r s' }.
Next Obligation. apply Nat.ltb_lt. assumption. Qed.

(** [re.FindAllStringSubmatch s (-1)]. *)
Definition FindAllStringSubmatch (r : Regexp) (s : string) : list (list string) :=
  flat_map (fun p => match p with Matched m => [m] | Copied _ => [] end) (scan r s).

(** [re.MatchString s]: whether [s] contains a match. *)
Definition MatchString (r : Regexp) (s : string) : bool :=
  match FindAllStringSubmatch r s with
  | [] => false
  | _ :: _ => true
  end.

(** [re.ReplaceAllString src repl], for a [repl] without [$]: the
    replacement is then inserted as it is. *)
Definition ReplaceAllString (r : Regexp) (src repl : string) : string :=
  fold_right (fun p out =>
                match p with
                | Matched _ => (repl ++ out)%string
                | Copied b => String b out
                end) EmptyString (scan r src).

(** Whether [k] accepts every byte of [s]. *)
Fixpoint all_accepted (k : class) (s : string) : bool :=
  match s with
  | EmptyString => true
  | String b s' => accepts k b && all_accepted k s'
  end.

End regexp.

(* ===================================================================== *)
(** * Package goquery: the parsed document *)
(* ===================================================================== *)

(** The program uses the parsed document through [Find] with one selector,
    [Each], [Attr], [SetAttr] and [Html].  The tree is modelled; the HTML
    parser and the renderer are library code and belong to the [World]. *)

Module goquery.

Definition Attribute := (string * string)%type.

#[local] Unset Elimination Schemes.
Inductive Node :=
| TextNode (data : string)
| ElementNode (tag : string) (attr : list Attribute) (children : list Node).

#[local] Set Elimination Schemes.

(** The children of the document node. *)
Definition Document := list Node.

(** [s.Attr name]: the value and whether the attribute exists. *)
Fixpoint Attr (attr : list Attribute) (name : string) : option string :=
  match attr with
  | [] => None
  | (k, v) :: attr' => if String.eqb k name then Some v else Attr attr' name
  end.

(** [s.SetAttr name val]: overwrites the attribute, or adds it. *)
Fixpoint SetAttr (attr : list Attribute) (name val : string) : list Attribute :=
  match attr with
  | [] => [(name, val)]
  | (k, v) :: attr' =>
      if String.eqb k name then (k, val) :: attr'
      else (k, v) :: SetAttr attr' name val
  end.

Definition has (attr : list Attribute) (name : string) : bool :=
  match Attr attr name with Some _ => true | None => false end.

(** The selector ["img[src], link[href], script[src]"]. *)
Definition source_like (tag : string) (attr : list Attribute) : bool :=
  (String.eqb tag "img" && has attr "src")
  || (String.eqb tag "link" && has attr "href")
  || (String.eqb tag "script" && has attr "src").

(** [doc.Find selector]: the attributes of the selected elements, in
    document order. *)
Fixpoint Find_node (n : Node) : list (list Attribute) :=
  match n with
  | TextNode _ => []
  | ElementNode tag attr children =>
      (if source_like tag attr then [attr] else []) ++ flat_map Find_node children
  end.

Definition Find (doc : Document) : list (list Attribute) :=
  flat_map Find_node doc.

(** [doc.Find(selector).Each f] for a callback that reads and sets the
    attributes of the element it is given: the document with every
    selected element updated in place. *)
Fixpoint Each_node (f : list Attribute -> list Attribute) (n : Node) : Node :=
  match n with
  | TextNode data => TextNode data
  | ElementNode tag attr children =>
      ElementNode tag (if source_like tag attr then f attr else attr)
                  (map (Each_node f) children)
  end.

Definition Each (f : list Attribute -> list Attribute) (doc : Document) : Document :=
  map (Each_node f) doc.

End goquery.

(* ===================================================================== *)
(** * The world outside the program *)
(* ===================================================================== *)

Definition nl : string := String regexp.newline EmptyString.

(** Go [error] values: those a library call returns, and those built by
    [fmt.Errorf]. *)
Inductive error :=
| LibError (msg : string)
| Errorf (format : string) (args : list Arg)
with Arg :=
| ArgString (s : string)
| ArgInt (n : Z)
| ArgError (e : error).

Inductive result (A : Type) :=
| ok (a : A)
| err (e : error).
Arguments ok {A} a.
Arguments err {A} e.

Module url.
(** The fields of [url.URL] the program reads, and the text [u.String()]
    gives. *)
Record URL := { Host : string; Path : string; text : string }.
Definition String_ (u : URL) : string := text u.
End url.

(** An HTTP response: its status and what reading its body delivers, the
    bytes and the read error that ends them, if any. *)
Record Response := {
  StatusCode : Z;
  Body : string;
  BodyErr : option error
}.

Definition StatusOK : Z := 200.

(** Resources the program opens and has to close. *)
Inductive Handle :=
| BodyOf (id : nat) (url : string)
| FileOf (id : nat) (path : string).

Definition Handle_eqb (h1 h2 : Handle) : bool :=
  match h1, h2 with
  | BodyOf i a, BodyOf j b => Nat.eqb i j && String.eqb a b
  | FileOf i a, FileOf j b => Nat.eqb i j && String.eqb a b
  | _, _ => false
  end.

(** What the program does to the world, in order. *)
Inductive Event :=
| EvPrintln (line : string)
| EvPrintf (format : string) (args : list Arg)
| EvGet (url : string)
| EvMkdirAll (path : string)
| EvCreate (path : string)
| EvWrite (path : string) (data : string)
| EvClose (h : Handle)
| EvChdir (path : string)
| EvRun (name : string) (args : list string).

(** The library functions and the environment the program depends on.  The
    answers of the network and of the file system may depend on everything
    that happened before (the trace). *)
Record World := {
  url_Parse : string -> result url.URL;
  filepath_Base : string -> string;
  filepath_Dir : string -> string;
  filepath_Join : list string -> string;
  goquery_NewDocumentFromReader : string -> result goquery.Document;
  goquery_Html : goquery.Document -> result string;
  net_Get : list Event -> string -> result Response;
  fs_MkdirAll : list Event -> string -> option error;
  fs_Create : list Event -> string -> option error;
  (** [None]: all the bytes are written; [Some (n, e)]: the write fails
      with [e] after [n] bytes. *)
  fs_Write : list Event -> string -> string -> option (nat * error);
  fs_Chdir : list Event -> string -> option error;
  exec_Run : list Event -> string -> list string -> option error
}.


Record State := { trace : list Event; opened : list Handle }.

Definition initial : State := {| trace := []; opened := [] |}.

(** How a computation ends: it returns, or the process exits, or it panics. *)
Inductive Outcome (A : Type) :=
| Return (a : A)
| Exit (code : Z)
| Panic (e : error).
Arguments Return {A} a.
Arguments Exit {A} code.
Arguments Panic {A} e.

Definition M (A : Type) : Type := State -> Outcome A * State.

Definition ret {A} (a : A) : M A := fun st => (Return a, st).

Definition bind {A B} (m : M A) (k : A -> M B) : M B :=
  fun st =>
    match m st with
    | (Return a, st') => k a st'
    | (Exit code, st') => (Exit code, st')
    | (Panic e, st') => (Panic e, st')
    end.

Declare Scope go_scope.
Delimit Scope go_scope with go.
Notation "x <- m ;; k" := (bind m (fun x => k))
  (at level 100, m at next level, right associativity) : go_scope.
Notation "m ;; k" := (bind m (fun _ => k))
  (at level 100, right associativity) : go_scope.
Open Scope go_scope.

Definition emit (e : Event) : M unit :=
  fun st => (Return tt, {| trace := trace st ++ [e]; opened := opened st |}).

Definition os_Exit {A} (code : Z) : M A := fun st => (Exit code, st).
Definition panic {A} (e : error) : M A := fun st => (Panic e, st).

Definition fmt_Println (line : string) : M unit := emit (EvPrintln line).
Definition fmt_Printf (format : string) (args : list Arg) : M unit :=
  emit (EvPrintf format args).

Section Calls.
Variable w : World.

(** [http.Get]: a response comes with an open body. *)
Definition http_Get (u : string) : M (result (Response * Handle)) :=
  fun st =>
    match net_Get w (trace st) u with
    | err e => (Return (err e), {| trace := trace st ++ [EvGet u]; opened := opened st |})
    | ok resp =>
        let h := BodyOf (List.length (trace st)) u in
        (Return (ok (resp, h)),
         {| trace := trace st ++ [EvGet u]; opened := h :: opened st |})
    end.

Definition os_MkdirAll (path : string) : M (option error) :=
  fun st =>
    (Return (fs_MkdirAll w (trace st) path),
     {| trace := trace st ++ [EvMkdirAll path]; opened := opened st |}).

(** [os.Create]: a created file is open. *)
Definition os_Create (path : string) : M (result Handle) :=
  fun st =>
    match fs_Create w (trace st) path with
    | Some e => (Return (err e), {| trace := trace st ++ [EvCreate path]; opened := opened st |})
    | None =>
        let h := FileOf (List.length (trace st)) path in
        (Return (ok h), {| trace := trace st ++ [EvCreate path]; opened := h :: opened st |})
    end.

(** [io.Copy file src] and [file.WriteString]: the bytes [data] that
    reading [src] delivers are written to [path]; the error is the one of
    the write, or else the one that ended the reading. *)
Definition io_Copy (path data : string) (readerr : option error) : M (option error) :=
  fun st =>
    match fs_Write w (trace st) path data with
    | Some (n, e) =>
        (Return (Some e),
         {| trace := trace st ++ [EvWrite path (substring 0 n data)]; opened := opened st |})
    | None =>
        (Return readerr,
         {| trace := trace st ++ [EvWrite path data]; opened := opened st |})
    end.

Definition os_Chdir (path : string) : M (option error) :=
  fun st =>
    (Return (fs_Chdir w (trace st) path),
     {| trace := trace st ++ [EvChdir path]; opened := opened st |}).

Definition cmd_Run (name : string) (args : list string) : M (option error) :=
  fun st =>
    (Return (exec_Run w (trace st) name args),
     {| trace := trace st ++ [EvRun name args]; opened := opened st |}).
End Calls.

(** [Close]: the handle is no longer open. *)
Definition Close (h : Handle) : M unit :=
  fun st =>
    (Return tt,
     {| trace := trace st ++ [EvClose h];
        opened := filter (fun h' => negb (Handle_eqb h h')) (opened st) |}).

(** The deferred calls of a function run when it returns, last deferred
    first. *)
Fixpoint run_deferred (deferred : list Handle) : M unit :=
  match deferred with
  | [] => ret tt
  | h :: deferred' => Close h ;; run_deferred deferred'
  end.

(* ===================================================================== *)
(** * main.go *)
(* ===================================================================== *)

(** The raw-content marker, as it occurs in an attribute value and as it
    occurs at the end of an inline link. *)
Definition raw_marker : string := "?raw=true".
Definition raw_marker_paren : string := "?raw=true)".

(** [strings.Replace(content, "?raw=true)", ")", -1)] (lines 124 and 166). *)
Definition strip_raw_suffix (content : string) : string :=
  strings.ReplaceAll content raw_marker_paren ")".

(** [regexp.MustCompile(`## <a .*></a>`)] (line 125). *)
Definition aRemoverRegex : regexp.Regexp :=
  regexp.Concat (regexp.Lit "## <a ")
    (regexp.Concat (regexp.Star regexp.AnyNotNL) (regexp.Lit "></a>")).

(** [aRemoverRegex.ReplaceAllString(content, "## ")] (line 126). *)
Definition remove_heading_anchors (content : string) : string :=
  regexp.ReplaceAllString aRemoverRegex content "## ".

(** The text [getReadme] writes to README.md (lines 121-126). *)
Definition canonical_text (raw : string) : string :=
  remove_heading_anchors (strip_raw_suffix raw).

(** [strings.Replace] of ["?raw=true"] by the empty text in an attribute
    value (lines 111 and 116). *)
Definition strip_attr_value (v : string) : string :=
  strings.ReplaceAll v raw_marker EmptyString.

(** One attribute of the callback of lines 108-119. *)
Definition strip_attr (attr : list goquery.Attribute) (name : string)
  : list goquery.Attribute :=
  match goquery.Attr attr name with
  | Some v =>
      if strings.Contains v raw_marker
      then goquery.SetAttr attr name (strip_attr_value v)
      else attr
  | None => attr
  end.

(** The callback of lines 108-119: [src], then [href]. *)
Definition strip_element (attr : list goquery.Attribute) : list goquery.Attribute :=
  strip_attr (strip_attr attr "src") "href".

(** The bytes the class [[^https?://]] rejects. *)
Definition excluded_first_bytes : string := "https?://".

(** Whether a path starts with a byte the class accepts. *)
Definition first_byte_accepted (path : string) : bool :=
  match path with
  | String c _ => negb (regexp.mem c excluded_first_bytes)
  | EmptyString => false
  end.

(** [regexp.MustCompile(`(\[.*\]\()([^https?://].*\.(png|jpg|gif|svg))\)`)]
    (line 160).  Inside the brackets [?] is a literal, so the class excludes
    one byte among h, t, p, s, ?, : and /. *)
Definition regex : regexp.Regexp :=
  regexp.Concat
    (regexp.Capture 1
       (regexp.Concat (regexp.Lit "[")
          (regexp.Concat (regexp.Star regexp.AnyNotNL) (regexp.Lit "]("))))
    (regexp.Concat
       (regexp.Capture 2
          (regexp.Concat (regexp.One (regexp.NoneOf excluded_first_bytes))
             (regexp.Concat (regexp.Star regexp.AnyNotNL)
                (regexp.Concat (regexp.Lit ".")
                   (regexp.Capture 3
                      (regexp.Alternate (regexp.Lit "png")
                         (regexp.Alternate (regexp.Lit "jpg")
                            (regexp.Alternate (regexp.Lit "gif") (regexp.Lit "svg")))))))))
       (regexp.Lit ")")).

(** The callback of lines 146-157 on one attribute. *)
Definition local_attr (attr : list goquery.Attribute) (name : string) : list string :=
  match goquery.Attr attr name with
  | Some v => if negb (strings.HasPrefix v "http") then [v] else []
  | None => []
  end.

(** The structural pass (lines 144-157). *)
Definition structural_assets (readme : goquery.Document) : list string :=
  flat_map (fun attr => local_attr attr "src" ++ local_attr attr "href")
           (goquery.Find readme).

(** The inline-syntax pass on the rendered text (lines 166-173). *)
Definition inline_assets (content : string) : list string :=
  let content := strip_raw_suffix content in
  flat_map (fun m =>
              if Nat.ltb (List.length m) 3 || String.eqb (nth 2 m EmptyString) EmptyString then []
              else [nth 2 m EmptyString])
           (regexp.FindAllStringSubmatch regex content).

Section Program.
Variable w : World.

(** Line 82: the raw-content endpoint of the document. *)
Definition readme_url (u : url.URL) (b : string) : string :=
  (url.String_ u ++ "/raw/" ++ b ++ "/README.md")%string.

(** Line 188: the raw-content endpoint of an asset. *)
Definition asset_url (u : url.URL) (b asset : string) : string :=
  (url.String_ u ++ "/raw/" ++ b ++ "/" ++ asset)%string.

(** Line 204: where an asset is written. *)
Definition asset_path (dir asset : string) : string :=
  filepath_Join w [dir; filepath_Dir w asset; filepath_Base w asset].

(** Lines 82-99 of [getReadme]: the document is fetched and its body read
    into the buffer. *)
Definition fetch_readme (u : url.URL) (b : string) : M (result string) :=
  r <- http_Get w (readme_url u b) ;;
  match r with
  | err e => ret (err e)
  | ok (resp, body) =>
      if negb (Z.eqb (StatusCode resp) StatusOK) then
        Close body ;;
        ret (err (Errorf "failed to retrieve the README.md file, status code: %d"
                         [ArgInt (StatusCode resp)]))
      else
        Close body ;;
        match BodyErr resp with
        | Some e => ret (err (Errorf "failed to read response body: %v" [ArgError e]))
        | None => ret (ok (Body resp))
        end
  end.

(** Lines 101-139 of [getReadme]: the buffer is parsed, the attributes of
    the parsed document are stripped, and the text derived from the buffer
    is written.  The file is closed by the deferred call when the function
    returns. *)
Definition parse_and_persist (u : url.URL) (raw : string)
  : M (result goquery.Document) :=
  match goquery_NewDocumentFromReader w raw with
  | err e =>
      fmt_Printf ("failed to parse the README.md file." ++ nl)%string [] ;;
      panic e
  | ok doc =>
      let doc := goquery.Each strip_element doc in
      let content := canonical_text raw in
      let path := filepath_Join w ["."; filepath_Base w (url.Path u); "README.md"] in
      f <- os_Create w path ;;
      match f with
      | err e => ret (err (Errorf "failed to create README.md file: %v" [ArgError e]))
      | ok file =>
          e <- io_Copy w path content None ;;
          Close file ;;
          match e with
          | Some e => ret (err (Errorf "failed to write README.md file: %v" [ArgError e]))
          | None => ret (ok doc)
          end
      end
  end.

(** [getReadme] (lines 81-140). *)
Definition getReadme (u : url.URL) (b : string) : M (result goquery.Document) :=
  r <- fetch_readme u b ;;
  match r with
  | err e => ret (err e)
  | ok raw => parse_and_persist u raw
  end.

(** The body of the loop of lines 187-218 for one asset.  [deferred] are
    the calls deferred so far in [downloadAssets], last first. *)
Definition download_one (u : url.URL) (b dir asset : string)
           (deferred : list Handle) : M (list Handle) :=
  let assetURL := asset_url u b asset in
  r <- http_Get w assetURL ;;
  match r with
  | err e =>
      fmt_Printf ("failed to download %s: %v" ++ nl)%string [ArgString assetURL; ArgError e] ;;
      ret deferred
  | ok (resp, body) =>
      let deferred := body :: deferred in
      if negb (Z.eqb (StatusCode resp) StatusOK) then
        fmt_Printf ("unexpected status code %d for %s" ++ nl)%string
                   [ArgInt (StatusCode resp); ArgString assetURL] ;;
        ret deferred
      else
        _ <- os_MkdirAll w (filepath_Join w [dir; filepath_Dir w asset]) ;;
        let filePath := asset_path dir asset in
        f <- os_Create w filePath ;;
        match f with
        | err e =>
            fmt_Printf ("failed to create file %s: %v" ++ nl)%string
                       [ArgString filePath; ArgError e] ;;
            ret deferred
        | ok file =>
            let deferred := file :: deferred in
            e <- io_Copy w filePath (Body resp) (BodyErr resp) ;;
            match e with
            | Some e =>
                fmt_Printf ("failed to write content to file %s: %v" ++ nl)%string
                           [ArgString filePath; ArgError e] ;;
                ret deferred
            | None => ret deferred
            end
        end
  end.

(** The loop of lines 187-218. *)
Fixpoint download_loop (u : url.URL) (b dir : string) (assets : list string)
         (deferred : list Handle) : M (list Handle) :=
  match assets with
  | [] => ret deferred
  | asset :: assets' =>
      deferred' <- download_one u b dir asset deferred ;;
      download_loop u b dir assets' deferred'
  end.

(** [downloadAssets] (lines 142-221); the result is its [error], [None]
    for nil. *)
Definition downloadAssets (readme : goquery.Document) (u : url.URL) (b : string)
  : M (option error) :=
  let assets := structural_assets readme in
  match goquery_Html w readme with
  | err e => panic e
  | ok content =>
      let assets := assets ++ inline_assets content in
      if Nat.eqb (List.length assets) 0 then ret None
      else
        let dir := filepath_Join w ["."; filepath_Base w (url.Path u)] in
        e <- os_MkdirAll w dir ;;
        match e with
        | Some e => ret (Some e)
        | None =>
            deferred <- download_loop u b dir assets [] ;;
            run_deferred deferred ;;
            ret None
        end
  end.

Definition usage : string :=
  "Usage: go run main.go <github-repo-link> <branch-name>".

Definition not_github : string :=
  "The provided link is not a GitHub repository link".

Definition expand_sh (repoLink : string) : string :=
  ("#!/bin/bash" ++ nl ++
   "git clone " ++ repoLink ++ " .repo" ++ nl ++
   "mv -f .repo/* .repo/.* ./" ++ nl ++
   "rm -rf .repo" ++ nl ++
   "rm expand.sh" ++ nl ++
   "git reset --hard" ++ nl)%string.

(** Lines 41-78 of [main]: what runs once the arguments and the host are
    accepted. *)
Definition mirror (repoLink : string) (u : url.URL) (branchName : string) : M unit :=
  let dir := filepath_Join w ["."; filepath_Base w (url.Path u)] in
  _ <- os_MkdirAll w dir ;;
  r <- getReadme u branchName ;;
  match r with
  | err e => panic e
  | ok readme =>
      e <- downloadAssets readme u branchName ;;
      match e with
      | Some e => panic e
      | None =>
          _ <- os_Chdir w dir ;;
          f <- os_Create w "expand.sh" ;;
          match f with
          | err e => panic e
          | ok file =>
              e <- io_Copy w "expand.sh" (expand_sh repoLink) None ;;
              match e with
              | Some e => Close file ;; panic e
              | None =>
                  e <- cmd_Run w "chmod" ["+x"; "expand.sh"] ;;
                  match e with
                  | Some e => Close file ;; panic e
                  | None => Close file
                  end
              end
          end
      end
  end.

(** [main] (lines 18-79); [Args] is [os.Args], the program name first. *)
Definition main (Args : list string) : M unit :=
  if negb (Nat.eqb (List.length Args) 2) then
    fmt_Println usage ;;
    os_Exit 1
  else
    let repoLink := nth 1 Args EmptyString in
    let branchName := "master" in
    let branchName :=
      if Nat.eqb (List.length Args) 3 then nth 2 Args EmptyString else branchName in
    match url_Parse w repoLink with
    | err e => panic e
    | ok u =>
        if negb (strings.HasPrefix (url.Host u) "github.com") then
          fmt_Println not_github ;;
          os_Exit 1
        else mirror repoLink u branchName
    end.

End Program.

(** The state in which [fetch_readme] leaves the world once a response has
    come: the request is made and the body is closed. *)
Definition after_fetch (u : string) (st : State) : State :=
  {| trace := trace st ++ [EvGet u; EvClose (BodyOf (List.length (trace st)) u)];
     opened := filter (fun h => negb (Handle_eqb (BodyOf (List.length (trace st)) u) h))
                      (opened st) |}.

(** The URLs requested in a trace, in order. *)
Definition requests (evs : list Event) : list string :=
  flat_map (fun e => match e with EvGet u => [u] | _ => [] end) evs.

(** The handles closed in a trace, in order. *)
Definition closes (evs : list Event) : list Handle :=
  flat_map (fun e => match e with EvClose h => [h] | _ => [] end) evs.

(** The exit status of the process. *)
Definition exit_code {A} (o : Outcome A) : Z :=
  match o with
  | Return _ => 0
  | Exit code => code
  | Panic _ => 2
  end.

(* ===================================================================== *)
(** * Test fixtures *)
(* ===================================================================== *)

(** Stand-ins for the library functions and a scripted environment, for the
    concrete runs below.  The path and URL functions are simplified: they
    agree with Go on the inputs the runs use (URLs of the form
    scheme://host/path, relative paths without [..]). *)

Module fixture.

(** [s] cut at its first slash. *)
Fixpoint cut_slash (s : string) : string * string :=
  match s with
  | EmptyString => (EmptyString, EmptyString)
  | String c s' =>
      if Ascii.eqb c "/" then (EmptyString, s)
      else let (a, b) := cut_slash s' in (String c a, b)
  end.

(** The text after the first ["://"]. *)
Fixpoint after_scheme (s : string) : option string :=
  match s with
  | EmptyString => None
  | String _ s' =>
      match strings.CutPrefix s "://" with
      | Some rest => Some rest
      | None => after_scheme s'
      end
  end.

Definition Parse (s : string) : result url.URL :=
  match after_scheme s with
  | Some rest =>
      let (host, path) := cut_slash rest in
      ok {| url.Host := host; url.Path := path; url.text := s |}
  | None => ok {| url.Host := EmptyString; url.Path := s; url.text := s |}
  end.

(** The elements of a path, without the empty ones and the dots. *)
Fixpoint elements (s : string) (cur : string) : list string :=
  let close cur :=
    if String.eqb cur EmptyString || String.eqb cur "." then [] else [cur] in
  match s with
  | EmptyString => close cur
  | String c s' =>
      if Ascii.eqb c "/" then close cur ++ elements s' EmptyString
      else elements s' (cur ++ String c EmptyString)%string
  end.

Definition unsplit (l : list string) : string :=
  match l with
  | [] => "."
  | _ => String.concat "/" l
  end.

Definition Join (l : list string) : string :=
  unsplit (flat_map (fun s => elements s EmptyString) l).

Definition Base (s : string) : string :=
  last (elements s EmptyString) ".".

Definition Dir (s : string) : string :=
  unsplit (removelast (elements s EmptyString)).

(** A world where the file system never fails, the network answers by
    [server], and the document library is [parse] and [html]. *)
Definition world (parse : string -> result goquery.Document)
           (html : goquery.Document -> result string)
           (server : string -> result Response) : World :=
  {| url_Parse := Parse;
     filepath_Base := Base;
     filepath_Dir := Dir;
     filepath_Join := Join;
     goquery_NewDocumentFromReader := parse;
     goquery_Html := html;
     net_Get := fun _ u => server u;
     fs_MkdirAll := fun _ _ => None;
     fs_Create := fun _ _ => None;
     fs_Write := fun _ _ _ => None;
     fs_Chdir := fun _ _ => None;
     exec_Run := fun _ _ _ => None |}.

(** What the HTML parser builds around the content of a body. *)
Definition page (body : list goquery.Node) : goquery.Document :=
  [goquery.ElementNode "html" []
     [goquery.ElementNode "head" [] []; goquery.ElementNode "body" [] body]].

End fixture.

Module scenario.

Definition dquote : string := String (ascii_of_nat 34) EmptyString.

(** A document library that knows the texts of [pages] and takes any
    other text for plain text; rendering writes the tags back. *)
Fixpoint lookup {A} (table : list (string * A)) (key : string) : option A :=
  match table with
  | [] => None
  | (k, a) :: table' => if String.eqb k key then Some a else lookup table' key
  end.

Definition parse (pages : list (string * list goquery.Node)) (s : string)
  : result goquery.Document :=
  match lookup pages s with
  | Some body => ok (fixture.page body)
  | None => ok (fixture.page [goquery.TextNode s])
  end.

Definition render_attr (a : goquery.Attribute) : string :=
  (" " ++ fst a ++ "=" ++ dquote ++ snd a ++ dquote)%string.

Definition void (tag : string) : bool :=
  String.eqb tag "img" || String.eqb tag "link".

Fixpoint render (n : goquery.Node) : string :=
  match n with
  | goquery.TextNode data => data
  | goquery.ElementNode tag attr children =>
      ("<" ++ tag ++ String.concat EmptyString (map render_attr attr) ++ ">" ++
       (if void tag then EmptyString
        else String.concat EmptyString (map render children) ++ "</" ++ tag ++ ">"))%string
  end.

Definition html (doc : goquery.Document) : result string :=
  ok (String.concat EmptyString (map render doc)).

(** A server that answers the URLs of [files] with status 200 and the
    given body, and any other URL with status 404. *)
Definition serve (files : list (string * Response)) (u : string) : result Response :=
  match lookup files u with
  | Some resp => ok resp
  | None => ok {| StatusCode := 404; Body := "404: Not Found"; BodyErr := None |}
  end.

Definition found (body : string) : Response :=
  {| StatusCode := 200; Body := body; BodyErr := None |}.

Definition img (src : string) : goquery.Node :=
  goquery.ElementNode "img" [("src", src)] [].



Definition repo : url.URL :=
  {| url.Host := "github.com"; url.Path := "/u/r"; url.text := "https://github.com/u/r" |}.

(** A README that is one image tag with the raw marker in its source. *)
Definition img_html : string :=
  ("<img src=" ++ dquote ++ "a.png?raw=true" ++ dquote ++ ">")%string.

Definition img_world : World :=
  fixture.world
    (parse [(img_html, [img "a.png?raw=true"])])
    html
    (serve [("https://github.com/u/r/raw/master/README.md", found img_html)]).


(** A server that answers the README request with status 204. *)
Definition no_content_world : World :=
  fixture.world (parse []) html
    (serve [("https://github.com/u/r/raw/master/README.md",
             {| StatusCode := 204; Body := EmptyString; BodyErr := None |})]).

(** A server on a host that merely starts with the name of the hosting
    service. *)
Definition other_host_world : World :=
  fixture.world (parse []) html
    (serve [("https://github.com.evil.org/u/r/raw/master/README.md", found "# r")]).

(** A document with three local images; the repository has the first and
    the third. *)
Definition three_images : goquery.Document :=
  fixture.page [img "a.png"; img "img/missing.png"; img "img/c.png"].

Definition two_of_three_world : World :=
  fixture.world (parse []) html
    (serve [("https://github.com/u/r/raw/master/a.png", found "AAAA");
            ("https://github.com/u/r/raw/master/img/c.png", found "CC")]).

(** The same repository with a README that is the three image tags. *)
Definition three_images_html : string :=
  String.concat EmptyString (map render [img "a.png"; img "img/missing.png"; img "img/c.png"]).

Definition three_images_world : World :=
  fixture.world
    (parse [(three_images_html, [img "a.png"; img "img/missing.png"; img "img/c.png"])])
    html
    (serve [("https://github.com/u/r/raw/master/README.md", found three_images_html);
            ("https://github.com/u/r/raw/master/a.png", found "AAAA");
            ("https://github.com/u/r/raw/master/img/c.png", found "CC")]).

End scenario.

(* ===================================================================== *)
(** * Vocabulary of the further properties *)
(* ===================================================================== *)

(** The index, in the trace, of the call that opened a handle. *)
Definition handle_id (h : Handle) : nat :=
  match h with
  | BodyOf id _ => id
  | FileOf id _ => id
  end.

(** A state in which every open handle was opened by a call of the trace. *)
Definition well_formed (st : State) : Prop :=
  Forall (fun h => handle_id h < List.length (trace st)) (opened st).

(** A computation that, however it ends, adds to the trace and leaves open
    exactly what was open before it. *)
Definition tidy {A : Type} (m : M A) : Prop :=
  forall st,
    well_formed st ->
    opened (snd (m st)) = opened st
    /\ exists evs, trace (snd (m st)) = trace st ++ evs.

(** The files created in a trace, in order. *)
Definition creates (evs : list Event) : list string :=
  flat_map (fun e => match e with EvCreate p => [p] | _ => [] end) evs.

(** The files written in a trace, in order. *)
Definition writes (evs : list Event) : list string :=
  flat_map (fun e => match e with EvWrite p _ => [p] | _ => [] end) evs.

(** The number of bytes [c] in a text. *)
Fixpoint count (c : ascii) (s : string) : nat :=
  match s with
  | EmptyString => 0
  | String b s' => (if Ascii.eqb b c then 1 else 0) + count c s'
  end.

(** The text of the source a piece of the search stands for. *)
Definition piece_text (p : regexp.piece) : string :=
  match p with
  | regexp.Copied b => String b EmptyString
  | regexp.Matched m => hd EmptyString m
  end.

(** A computation that, however it ends, adds to the trace only events that
    satisfy [P]. *)
Definition only {A : Type} (P : Event -> Prop) (m : M A) : Prop :=
  forall st,
    exists evs, trace (snd (m st)) = trace st ++ evs /\ Forall P evs.

(** The effects of the retrieval loop over [assets], for the repository [u]
    at the revision [b] and the destination [dir]: requests of the assets,
    creation of their directories, creation and writing of their files,
    messages and closes. *)
Definition download_event (w : World) (u : url.URL) (b dir : string)
           (assets : list string) (e : Event) : Prop :=
  match e with
  | EvGet x => exists a, In a assets /\ x = asset_url u b a
  | EvMkdirAll p =>
      exists a, In a assets /\ p = filepath_Join w [dir; filepath_Dir w a]
  | EvCreate p | EvWrite p _ => exists a, In a assets /\ p = asset_path w dir a
  | EvPrintf _ _ | EvClose _ => True
  | EvPrintln _ | EvChdir _ | EvRun _ _ => False
  end.



(** A computation that returns or panics, and never makes the process
    exit. *)
Definition never_exits {A : Type} (m : M A) : Prop :=
  forall st code, fst (m st) <> Exit code.

(* ===================================================================== *)
(** * Properties of the string functions *)
(* ===================================================================== *)

Lemma string_app_assoc (a b c : string) :
  ((a ++ b) ++ c)%string = (a ++ b ++ c)%string.
Proof. induction a as [|x a IH]; simpl; [reflexivity | now rewrite IH]. Qed.

Lemma CutPrefix_app (s p rest : string) :
  strings.CutPrefix s p = Some rest <-> s = (p ++ rest)%string.
Proof.
  revert s; induction p as [|a p IH]; intros s; simpl.
  - split; intros H; [injection H as ->; reflexivity | now subst].
  - destruct s as [|c s]; [split; discriminate|].
    destruct (Ascii.eqb_spec a c) as [->|Hne].
    + rewrite IH. split; [intros ->; reflexivity | intros H; now injection H].
    + split; [discriminate | intros H; injection H as H _; congruence].
Qed.

Lemma CutPrefix_length (s p rest : string) :
  strings.CutPrefix s p = Some rest ->
  String.length s = String.length p + String.length rest.
Proof.
  intros H. apply CutPrefix_app in H. subst s.
  induction p; simpl; auto.
Qed.

Lemma ReplaceAll_nil (old new : string) :
  old <> EmptyString -> strings.ReplaceAll EmptyString old new = EmptyString.
Proof.
  intros H. simp ReplaceAll. destruct old; [contradiction | reflexivity].
Qed.

(** The loop of [strings.Replace] at a non-empty text, for a non-empty
    [old]: an occurrence of [old] at the front is replaced and the search
    goes on after it; otherwise one byte is copied. *)
Lemma ReplaceAll_cons (c : ascii) (s old new : string) :
  old <> EmptyString ->
  strings.ReplaceAll (String c s) old new =
  match strings.CutPrefix (String c s) old with
  | Some rest => (new ++ strings.ReplaceAll rest old new)%string
  | None => String c (strings.ReplaceAll s old new)
  end.
Proof.
  intros Hold.
  destruct (strings.CutPrefix (String c s) old) as [rest|] eqn:E; simp ReplaceAll;
    generalize (inspect (strings.CutPrefix (String c s) old));
    intros [[rest'|] e]; simp ReplaceAll; try congruence.
  assert (rest' = rest) as -> by congruence.
  generalize (inspect (Nat.ltb (String.length rest) (S (String.length s)))).
  intros [[|] e']; simp ReplaceAll; [reflexivity|].
  exfalso. apply Nat.ltb_ge in e'. apply CutPrefix_length in e.
  destruct old; [contradiction|]. simpl in *. lia.
Qed.

Lemma HasPrefix_iff (s q : string) :
  strings.HasPrefix s q = true <-> exists t, s = (q ++ t)%string.
Proof.
  unfold strings.HasPrefix.
  destruct (strings.CutPrefix s q) as [rest|] eqn:E.
  - apply CutPrefix_app in E. split; eauto.
  - split; [discriminate|]. intros [t Ht].
    apply CutPrefix_app in Ht. congruence.
Qed.

Lemma HasPrefix_cons (c a : ascii) (s q : string) :
  strings.HasPrefix (String c s) (String a q) = Ascii.eqb a c && strings.HasPrefix s q.
Proof.
  unfold strings.HasPrefix. simpl. destruct (Ascii.eqb a c); reflexivity.
Qed.

Lemma HasPrefix_Contains (s x : string) :
  strings.HasPrefix s x = true -> strings.Contains s x = true.
Proof.
  destruct s; simpl; intros H; [assumption|]. now rewrite H.
Qed.

Lemma Contains_suffix (a t x : string) :
  strings.Contains t x = true -> strings.Contains (a ++ t) x = true.
Proof.
  intros H. induction a as [|c a IH]; simpl; [assumption|].
  rewrite IH. apply orb_true_r.
Qed.

(** [strings.Contains] is the existence of an occurrence. *)
Lemma Contains_iff (s x : string) :
  strings.Contains s x = true <-> exists a b, s = (a ++ x ++ b)%string.
Proof.
  induction s as [|c s IH]; simpl.
  - rewrite HasPrefix_iff. split.
    + intros [t Ht]. exists EmptyString, t. assumption.
    + intros (a & b & H). destruct a; [|discriminate]. eauto.
  - rewrite orb_true_iff, HasPrefix_iff, IH. split.
    + intros [[t Ht] | (a & b & H)].
      * exists EmptyString, t. assumption.
      * exists (String c a), b. simpl. now rewrite H.
    + intros (a & b & H). destruct a as [|c' a]; simpl in H.
      * left. eauto.
      * right. injection H as _ H. eauto.
Qed.

(** A text without occurrence of [old] is left as it is. *)
Lemma ReplaceAll_absent (s old new : string) :
  strings.Contains s old = false -> strings.ReplaceAll s old new = s.
Proof.
  intros H.
  assert (Hold : old <> EmptyString).
  { intros ->. destruct s; discriminate. }
  induction s as [|c s IH].
  - apply ReplaceAll_nil. assumption.
  - simpl in H. apply orb_false_iff in H as [Hp Hc].
    rewrite ReplaceAll_cons by assumption.
    unfold strings.HasPrefix in Hp.
    destruct (strings.CutPrefix (String c s) old); [discriminate|].
    now rewrite IH.
Qed.

(** ** Replacing [p ++ z] by [z], for a byte [z] that is not in [p] *)

Section ReplaceByLastByte.
Variables (p : string) (z : ascii).
Hypothesis p_not_empty : p <> EmptyString.
Hypothesis z_not_in_p : strings.Contains p (String z EmptyString) = false.

Let old : string := (p ++ String z EmptyString)%string.
Let new : string := String z EmptyString.
Let strip (s : string) : string := strings.ReplaceAll s old new.

Lemma old_not_empty : old <> EmptyString.
Proof. unfold old. destruct p; discriminate. Qed.

Lemma old_head : exists a q, old = String a q /\ a <> z.
Proof.
  unfold old. destruct p as [|a q]; [contradiction|].
  exists a, (q ++ String z EmptyString)%string. split; [reflexivity|].
  intros ->. simpl in z_not_in_p. rewrite HasPrefix_cons, Ascii.eqb_refl in z_not_in_p.
  discriminate.
Qed.

Lemma strip_hit (s rest : string) :
  strings.CutPrefix s old = Some rest -> strip s = String z (strip rest).
Proof.
  intros H. unfold strip. destruct s as [|c s].
  - apply CutPrefix_app in H. destruct old_head as (a & q & -> & _). discriminate.
  - rewrite ReplaceAll_cons by apply old_not_empty. rewrite H. reflexivity.
Qed.

Lemma strip_miss (c : ascii) (s : string) :
  strings.CutPrefix (String c s) old = None -> strip (String c s) = String c (strip s).
Proof.
  intros H. unfold strip. rewrite ReplaceAll_cons by apply old_not_empty.
  rewrite H. reflexivity.
Qed.

(** The output starts with [q ++ z] only if the input starts with [q]. *)
Lemma strip_prefix_copied (q s : string) :
  strings.Contains q (String z EmptyString) = false ->
  strings.HasPrefix (strip s) (q ++ String z EmptyString) = true ->
  exists t, s = (q ++ t)%string /\ strings.HasPrefix (strip t) (String z EmptyString) = true.
Proof.
  revert s. induction q as [|a q IH]; intros s Hq H.
  - exists s. split; [reflexivity | assumption].
  - simpl in Hq. rewrite HasPrefix_cons in Hq.
    apply orb_false_iff in Hq as [Ha Hq].
    assert (Haz : Ascii.eqb z a = false).
    { destruct (Ascii.eqb z a); [discriminate | reflexivity]. }
    destruct s as [|c s].
    + unfold strip in H. rewrite ReplaceAll_nil in H by apply old_not_empty.
      discriminate.
    + destruct (strings.CutPrefix (String c s) old) as [rest|] eqn:E.
      * rewrite (strip_hit _ _ E) in H. simpl in H.
        rewrite HasPrefix_cons, Ascii.eqb_sym, Haz in H. discriminate.
      * rewrite (strip_miss _ _ E) in H. simpl in H.
        rewrite HasPrefix_cons in H. apply andb_true_iff in H as [Hac H].
        apply Ascii.eqb_eq in Hac. subst c.
        destruct (IH s Hq H) as (t & -> & Ht).
        exists t. split; [reflexivity | assumption].
Qed.

Lemma strip_starts_with_z (t : string) :
  strings.HasPrefix (strip t) (String z EmptyString) = true ->
  strings.HasPrefix t old = true \/ strings.HasPrefix t (String z EmptyString) = true.
Proof.
  intros H. destruct t as [|c t].
  - unfold strip in H. rewrite ReplaceAll_nil in H by apply old_not_empty.
    discriminate.
  - destruct (strings.CutPrefix (String c t) old) as [rest|] eqn:E.
    + left. unfold strings.HasPrefix. now rewrite E.
    + right. rewrite (strip_miss _ _ E) in H.
      rewrite HasPrefix_cons in *. assumption.
Qed.

(** An occurrence of [old] at the front of the output, where the input
    has none, comes from [p] followed by an occurrence of [old]. *)
Lemma strip_new_occurrence_here (s : string) :
  strings.HasPrefix s old = false ->
  strings.HasPrefix (strip s) old = true ->
  strings.HasPrefix s (p ++ old) = true.
Proof.
  intros Hs H.
  destruct (strip_prefix_copied p s z_not_in_p H) as (t & -> & Ht).
  destruct (strip_starts_with_z t Ht) as [Ho | Hz].
  - apply HasPrefix_iff in Ho as [t' ->]. apply HasPrefix_iff.
    exists t'. now rewrite string_app_assoc.
  - apply HasPrefix_iff in Hz as [t' ->].
    assert (strings.HasPrefix (p ++ String z EmptyString ++ t') old = true).
    { apply HasPrefix_iff. exists t'. unfold old. now rewrite string_app_assoc. }
    congruence.
Qed.

Lemma strip_new_occurrence_bounded (n : nat) (s : string) :
  String.length s <= n ->
  strings.Contains (strip s) old = true ->
  strings.Contains s (p ++ old) = true.
Proof.
  revert s. induction n as [|n IH]; intros s Hn H.
  - destruct s; [|simpl in Hn; lia].
    unfold strip in H. rewrite ReplaceAll_nil in H by apply old_not_empty.
    simpl in H. destruct old_head as (a & q & Hq & _). rewrite Hq in H. discriminate.
  - destruct s as [|c s].
    { unfold strip in H. rewrite ReplaceAll_nil in H by apply old_not_empty.
      simpl in H. destruct old_head as (a & q & Hq & _). rewrite Hq in H. discriminate. }
    destruct (strings.CutPrefix (String c s) old) as [rest|] eqn:E.
    + rewrite (strip_hit _ _ E) in H. simpl in H.
      apply orb_true_iff in H as [H | H].
      * destruct old_head as (a & q & Hq & Ha). rewrite Hq, HasPrefix_cons in H.
        apply andb_true_iff in H as [H _]. apply Ascii.eqb_eq in H. congruence.
      * pose proof (CutPrefix_length _ _ _ E) as Hlen.
        apply CutPrefix_app in E. rewrite E.
        apply Contains_suffix. apply IH; [|assumption].
        destruct old_head as (a & q & Hq & _). rewrite Hq in Hlen.
        simpl in Hlen, Hn. lia.
    + rewrite (strip_miss _ _ E) in H. simpl in H.
      apply orb_true_iff in H as [H | H].
      * apply HasPrefix_Contains. apply strip_new_occurrence_here.
        -- unfold strings.HasPrefix. now rewrite E.
        -- now rewrite (strip_miss _ _ E).
      * apply (Contains_suffix (String c EmptyString) s).
        apply IH; [simpl in Hn; lia | assumption].
Qed.

(** One pass leaves no occurrence of [old], unless the input contains
    [p ++ old]. *)
Lemma strip_removes_all (s : string) :
  strings.Contains s (p ++ old) = false ->
  strings.Contains (strip s) old = false.
Proof.
  intros H. destruct (strings.Contains (strip s) old) eqn:E; [|reflexivity].
  apply (strip_new_occurrence_bounded (String.length s)) in E; [congruence | lia].
Qed.

Lemma strip_twice (s : string) :
  strings.Contains s (p ++ old) = false ->
  strip (strip s) = strip s.
Proof.
  intros H. apply ReplaceAll_absent. apply strip_removes_all. assumption.
Qed.
End ReplaceByLastByte.

(* ===================================================================== *)
(** * Properties of the pattern matcher *)
(* ===================================================================== *)

Lemma scan_nil (r : regexp.Regexp) :
  regexp.scan r EmptyString =
  match regexp.match_here r EmptyString with
  | Some (rest, g) => [regexp.Matched (regexp.submatch r EmptyString rest g)]
  | None => []
  end.
Proof.
  simp scan. destruct (regexp.match_here r EmptyString) as [[rest g]|]; reflexivity.
Qed.

(** The search at a non-empty text. *)
Lemma scan_cons (r : regexp.Regexp) (b : ascii) (s : string) :
  regexp.scan r (String b s) =
  match regexp.match_here r (String b s) with
  | Some (rest, g) =>
      if Nat.ltb (String.length rest) (S (String.length s))
      then regexp.Matched (regexp.submatch r (String b s) rest g) :: regexp.scan r rest
      else regexp.Matched (regexp.submatch r (String b s) rest g)
             :: regexp.Copied b :: regexp.scan r s
  | None => regexp.Copied b :: regexp.scan r s
  end.
Proof.
  destruct (regexp.match_here r (String b s)) as [[rest g]|] eqn:E; simp scan;
    generalize (inspect (regexp.match_here r (String b s)));
    intros [[[rest' g']|] e]; simp scan; try congruence.
  assert (rest' = rest /\ g' = g) as [-> ->] by (split; congruence).
  generalize (inspect (Nat.ltb (String.length rest) (S (String.length s)))).
  intros [[|] e']; simp scan; rewrite e'; reflexivity.
Qed.

(** A text in which the pattern has no match is left as it is. *)
Lemma ReplaceAllString_no_match (r : regexp.Regexp) (s repl : string) :
  regexp.MatchString r s = false -> regexp.ReplaceAllString r s repl = s.
Proof.
  unfold regexp.MatchString, regexp.FindAllStringSubmatch, regexp.ReplaceAllString.
  induction s as [|b s IH].
  - rewrite scan_nil. destruct (regexp.match_here r EmptyString) as [[rest g]|];
      [discriminate | reflexivity].
  - rewrite scan_cons. destruct (regexp.match_here r (String b s)) as [[rest g]|].
    + destruct (Nat.ltb _ _); discriminate.
    + simpl. intros H. now rewrite IH.
Qed.

(** The pattern has a match in a text exactly when it matches at the start
    of one of its suffixes. *)
Lemma MatchString_iff (r : regexp.Regexp) (s : string) :
  regexp.MatchString r s = true <->
  exists a t, s = (a ++ t)%string /\ regexp.match_here r t <> None.
Proof.
  unfold regexp.MatchString, regexp.FindAllStringSubmatch.
  induction s as [|b s IH].
  - rewrite scan_nil. split.
    + intros H. exists EmptyString, EmptyString. split; [reflexivity|].
      destruct (regexp.match_here r EmptyString) as [[rest g]|]; [discriminate | discriminate].
    + intros (a & t & Hs & Ht). destruct a; [|discriminate]. simpl in Hs. subst t.
      destruct (regexp.match_here r EmptyString) as [[rest g]|]; [reflexivity | contradiction].
  - rewrite scan_cons. split.
    + intros H. destruct (regexp.match_here r (String b s)) as [[rest g]|] eqn:E.
      * exists EmptyString, (String b s). split; [reflexivity | congruence].
      * simpl in H. apply IH in H as (a & t & -> & Ht).
        exists (String b a), t. split; [reflexivity | assumption].
    + intros (a & t & Hs & Ht). destruct a as [|c a]; simpl in Hs.
      * subst t. destruct (regexp.match_here r (String b s)) as [[rest g]|];
          [destruct (Nat.ltb _ _); reflexivity | contradiction].
      * injection Hs as -> ->.
        destruct (regexp.match_here r (String c (a ++ t))) as [[rest g]|];
          [destruct (Nat.ltb _ _); reflexivity |].
        simpl. apply IH. eauto.
Qed.

Lemma star_ext {R : Type} (k : regexp.class) (s : string) (c1 c2 : string -> option R) :
  (forall t, c1 t = c2 t) -> regexp.star k s c1 = regexp.star k s c2.
Proof.
  intros H. induction s as [|b s IH]; simpl; [apply H|].
  rewrite IH, H. reflexivity.
Qed.

(** What [k*] consumes is accepted by [k], byte by byte. *)
Lemma star_sound {R : Type} (k : regexp.class) (s : string)
      (cont : string -> option R) (x : R) :
  regexp.star k s cont = Some x ->
  exists m rest, s = (m ++ rest)%string
                 /\ regexp.all_accepted k m = true /\ cont rest = Some x.
Proof.
  induction s as [|b s IH]; simpl; intros H.
  - exists EmptyString, EmptyString. auto.
  - destruct (regexp.accepts k b) eqn:Hb.
    + destruct (regexp.star k s cont) as [y|] eqn:E.
      * injection H as ->. destruct (IH eq_refl) as (m & rest & -> & Hm & Hc).
        exists (String b m), rest. simpl. rewrite Hb. auto.
      * exists EmptyString, (String b s). auto.
    + exists EmptyString, (String b s). auto.
Qed.

(** [k*] finds a match whenever some accepted prefix is followed by a text
    the continuation accepts. *)
Lemma star_complete {R : Type} (k : regexp.class) (m rest : string)
      (cont : string -> option R) :
  regexp.all_accepted k m = true -> cont rest <> None ->
  regexp.star k (m ++ rest) cont <> None.
Proof.
  intros Hm Hc. induction m as [|b m IH]; simpl in *.
  - destruct rest as [|c rest]; simpl; [assumption|].
    destruct (regexp.accepts k c); [|assumption].
    destruct (regexp.star k rest cont); [discriminate | assumption].
  - apply andb_true_iff in Hm as [Hb Hm]. rewrite Hb.
    specialize (IH Hm). destruct (regexp.star k (m ++ rest) cont); [discriminate | contradiction].
Qed.

Lemma run_Lit {R : Type} (l s : string) (g : regexp.groups)
      (cont : string -> regexp.groups -> option R) :
  regexp.run (regexp.Lit l) s g cont =
  match strings.CutPrefix s l with
  | Some rest => cont rest g
  | None => None
  end.
Proof.
  revert s. induction l as [|a l IH]; intros s; simpl; [reflexivity|].
  destruct s as [|b s]; [reflexivity|].
  rewrite Ascii.eqb_sym. destruct (Ascii.eqb a b); [apply IH | reflexivity].
Qed.

(** Every byte but the newline: the text has no newline. *)
Lemma all_accepted_AnyNotNL (m : string) :
  regexp.all_accepted regexp.AnyNotNL m = negb (strings.Contains m nl).
Proof.
  induction m as [|b m IH]; [reflexivity|].
  cbn [regexp.all_accepted strings.Contains regexp.accepts]. rewrite IH.
  change nl with (String regexp.newline EmptyString).
  rewrite HasPrefix_cons, negb_orb, (Ascii.eqb_sym regexp.newline b).
  f_equal. now rewrite andb_true_r.
Qed.

(** ** The heading-anchor pattern *)

Lemma match_here_aRemoverRegex (s : string) :
  regexp.match_here aRemoverRegex s =
  match strings.CutPrefix s "## <a " with
  | Some s1 =>
      regexp.star regexp.AnyNotNL s1
        (fun t => match strings.CutPrefix t "></a>" with
                  | Some rest => Some (rest, [])
                  | None => None
                  end)
  | None => None
  end.
Proof.
  unfold regexp.match_here, aRemoverRegex.
  cbn [regexp.run]. rewrite run_Lit.
  destruct (strings.CutPrefix s "## <a ") as [s1|]; [|reflexivity].
  cbn [regexp.run]. apply star_ext. intros t. apply run_Lit.
Qed.

(** A match of the heading-anchor pattern is ["## <a "], a text without
    newline, and ["></a>"]. *)
Lemma aRemoverRegex_sound (s rest : string) (g : regexp.groups) :
  regexp.match_here aRemoverRegex s = Some (rest, g) ->
  exists attrs, s = ("## <a " ++ attrs ++ "></a>" ++ rest)%string
                /\ strings.Contains attrs nl = false.
Proof.
  rewrite match_here_aRemoverRegex.
  destruct (strings.CutPrefix s "## <a ") as [s1|] eqn:E1; [|discriminate].
  intros H. apply star_sound in H as (m & t & -> & Hm & Ht).
  destruct (strings.CutPrefix t "></a>") as [rest'|] eqn:E2; [|discriminate].
  injection Ht as -> _.
  apply CutPrefix_app in E1, E2. subst.
  exists m. split; [reflexivity|].
  rewrite all_accepted_AnyNotNL in Hm. now apply negb_true_iff in Hm.
Qed.

Lemma aRemoverRegex_complete (attrs rest : string) :
  strings.Contains attrs nl = false ->
  regexp.match_here aRemoverRegex ("## <a " ++ attrs ++ "></a>" ++ rest) <> None.
Proof.
  intros H. rewrite match_here_aRemoverRegex.
  replace (strings.CutPrefix ("## <a " ++ attrs ++ "></a>" ++ rest) "## <a ")
    with (Some (attrs ++ "></a>" ++ rest)%string)
    by (symmetry; apply CutPrefix_app; reflexivity).
  apply star_complete.
  - rewrite all_accepted_AnyNotNL, H. reflexivity.
  - replace (strings.CutPrefix ("></a>" ++ rest) "></a>") with (Some rest)
      by (symmetry; apply CutPrefix_app; reflexivity).
    discriminate.
Qed.

(** The heading-anchor pattern has a match in a text exactly when the text
    contains ["## <a "] and, later and before any newline, ["></a>"]. *)
Lemma aRemoverRegex_MatchString (s : string) :
  regexp.MatchString aRemoverRegex s = true <->
  exists a attrs b, s = (a ++ "## <a " ++ attrs ++ "></a>" ++ b)%string
                    /\ strings.Contains attrs nl = false.
Proof.
  rewrite MatchString_iff. split.
  - intros (a & t & -> & Ht).
    destruct (regexp.match_here aRemoverRegex t) as [[rest g]|] eqn:E; [|contradiction].
    apply aRemoverRegex_sound in E as (attrs & -> & Hattrs).
    exists a, attrs, rest. auto.
  - intros (a & attrs & b & -> & Hattrs).
    exists a, ("## <a " ++ attrs ++ "></a>" ++ b)%string.
    split; [reflexivity | now apply aRemoverRegex_complete].
Qed.

(** ** The pattern of the inline links *)

Lemma string_length_app (a b : string) :
  String.length (a ++ b) = String.length a + String.length b.
Proof. induction a as [|x a IH]; simpl; [reflexivity | now rewrite IH]. Qed.

Lemma substring_prefix (m rest : string) :
  substring 0 (String.length m) (m ++ rest) = m.
Proof.
  induction m as [|x m IH]; simpl; [destruct rest; reflexivity | now rewrite IH].
Qed.

Lemma consumed_app (m rest : string) : regexp.consumed (m ++ rest) rest = m.
Proof.
  unfold regexp.consumed. rewrite string_length_app.
  replace (String.length m + String.length rest - String.length rest)
    with (String.length m) by lia.
  apply substring_prefix.
Qed.

Lemma run_Lit_Some {R : Type} (l s : string) (g : regexp.groups)
      (cont : string -> regexp.groups -> option R) (x : R) :
  regexp.run (regexp.Lit l) s g cont = Some x ->
  exists rest, s = (l ++ rest)%string /\ cont rest g = Some x.
Proof.
  rewrite run_Lit. destruct (strings.CutPrefix s l) as [rest|] eqn:E; [|discriminate].
  apply CutPrefix_app in E. eauto.
Qed.

Lemma or_else_Some {A : Type} (a b : option A) (x : A) :
  match a with Some y => Some y | None => b end = Some x ->
  a = Some x \/ b = Some x.
Proof. destruct a; auto. Qed.

(** A match of the pattern of line 160: a label and a path without newline
    after their first byte, the path starting with a byte of the class and
    ending in one of the four extensions; the second group is the path. *)
Lemma regex_sound (s rest : string) (g : regexp.groups) :
  regexp.match_here regex s = Some (rest, g) ->
  exists label c mid ext,
    s = ("[" ++ label ++ "](" ++ String c (mid ++ "." ++ ext) ++ ")" ++ rest)%string
    /\ regexp.group g 2 = String c (mid ++ "." ++ ext)
    /\ regexp.mem c excluded_first_bytes = false
    /\ In ext ["png"; "jpg"; "gif"; "svg"]
    /\ strings.Contains label nl = false
    /\ strings.Contains mid nl = false.
Proof.
  unfold regexp.match_here, regex. cbn [regexp.run]. intros H.
  apply run_Lit_Some in H as (s1 & -> & H).
  apply star_sound in H as (label & t & -> & Hlabel & H).
  apply run_Lit_Some in H as (s2 & -> & H).
  destruct s2 as [|c s3]; [discriminate|].
  destruct (regexp.accepts (regexp.NoneOf excluded_first_bytes) c) eqn:Hc; [|discriminate].
  apply star_sound in H as (mid & t & -> & Hmid & H).
  apply run_Lit_Some in H as (t2 & -> & H).
  assert (Hext : exists ext,
             In ext ["png"; "jpg"; "gif"; "svg"] /\ t2 = (ext ++ ")" ++ rest)%string
             /\ g = [(2, regexp.consumed
                           (String c (mid ++ "." ++ t2)) (")" ++ rest)%string);
                     (3, regexp.consumed t2 (")" ++ rest)%string);
                     (1, regexp.consumed
                           ("[" ++ label ++ "](" ++ String c (mid ++ "." ++ t2))
                           (String c (mid ++ "." ++ t2)))]).
  { apply or_else_Some in H as [H | H];
      [|apply or_else_Some in H as [H | H];
        [|apply or_else_Some in H as [H | H]]];
      apply run_Lit_Some in H as (t3 & -> & H);
      apply run_Lit_Some in H as (t4 & -> & H);
      injection H as <- <-;
      [exists "png" | exists "jpg" | exists "gif" | exists "svg"];
      (split; [cbn [In]; auto 6 | split; reflexivity]). }
  destruct Hext as (ext & Hin & -> & ->).
  exists label, c, mid, ext.
  rewrite all_accepted_AnyNotNL in Hlabel, Hmid.
  apply negb_true_iff in Hlabel, Hmid. cbn [regexp.accepts] in Hc.
  apply negb_true_iff in Hc.
  repeat split; try assumption.
  - cbn. now rewrite !string_app_assoc.
  - cbn [regexp.group Nat.eqb].
    replace (String c (mid ++ "." ++ ext ++ ")" ++ rest))%string
      with ((String c (mid ++ "." ++ ext)) ++ (")" ++ rest))%string
      by (cbn; now rewrite !string_app_assoc).
    apply consumed_app.
Qed.

(** Every match the search reports is a match of the pattern at the start
    of some text. *)
Lemma scan_Matched (r : regexp.Regexp) (m : list string) (n : nat) (s : string) :
  String.length s <= n ->
  In (regexp.Matched m) (regexp.scan r s) ->
  exists t rest g,
    regexp.match_here r t = Some (rest, g) /\ m = regexp.submatch r t rest g.
Proof.
  revert s. induction n as [|n IH]; intros s Hn Hin.
  - destruct s; [|simpl in Hn; lia].
    rewrite scan_nil in Hin.
    destruct (regexp.match_here r EmptyString) as [[rest g]|] eqn:E; [|contradiction].
    destruct Hin as [Hin | []]. injection Hin as <-. eauto.
  - destruct s as [|b s].
    { rewrite scan_nil in Hin.
      destruct (regexp.match_here r EmptyString) as [[rest g]|] eqn:E; [|contradiction].
      destruct Hin as [Hin | []]. injection Hin as <-. eauto. }
    rewrite scan_cons in Hin. simpl in Hn.
    destruct (regexp.match_here r (String b s)) as [[rest g]|] eqn:E.
    + destruct (Nat.ltb (String.length rest) (S (String.length s))) eqn:Hlt.
      * destruct Hin as [Hin | Hin]; [injection Hin as <-; eauto|].
        apply Nat.ltb_lt in Hlt. apply (IH rest); [lia | assumption].
      * destruct Hin as [Hin | [Hin | Hin]]; [injection Hin as <-; eauto | discriminate |].
        apply (IH s); [lia | assumption].
    + destruct Hin as [Hin | Hin]; [discriminate|].
      apply (IH s); [lia | assumption].
Qed.

(** Whatever the text, the inline pass extracts no path whose first byte is
    h, t, p, s, ?, : or /. *)
Lemma inline_assets_first_byte (content : string) :
  forallb first_byte_accepted (inline_assets content) = true.
Proof.
  apply forallb_forall. intros path Hin. unfold inline_assets in Hin.
  apply in_flat_map in Hin as (m & Hm & Hpath).
  unfold regexp.FindAllStringSubmatch in Hm.
  apply in_flat_map in Hm as (piece & Hpiece & Hm).
  destruct piece as [b | m']; [contradiction|].
  destruct Hm as [-> | []].
  apply (scan_Matched _ _ (String.length (strip_raw_suffix content))) in Hpiece;
    [|lia].
  destruct Hpiece as (t & rest & g & Hmatch & ->).
  apply regex_sound in Hmatch as (label & c & mid & ext & _ & Hgroup & Hc & _).
  change (regexp.submatch regex t rest g)
    with [regexp.consumed t rest; regexp.group g 1; regexp.group g 2; regexp.group g 3]
    in Hpath.
  cbn [List.length nth Nat.ltb Nat.leb orb] in Hpath.
  rewrite Hgroup in Hpath. cbn [String.eqb] in Hpath.
  destruct Hpath as [<- | []]. cbn [first_byte_accepted]. now rewrite Hc.
Qed.

(* ===================================================================== *)
(** * Properties of the parsed document *)
(* ===================================================================== *)

(** Induction on a node with the hypothesis for every child. *)
Lemma Node_induction (P : goquery.Node -> Prop) :
  (forall data, P (goquery.TextNode data)) ->
  (forall tag attr children,
      Forall P children -> P (goquery.ElementNode tag attr children)) ->
  forall n, P n.
Proof.
  intros Htext Helem.
  fix IH 1. intros [data | tag attr children].
  - apply Htext.
  - apply Helem. induction children as [|c children IHc]; constructor.
    + apply IH.
    + apply IHc.
Qed.

Lemma Attr_SetAttr_same (attr : list goquery.Attribute) (name v v' : string) :
  goquery.Attr attr name = Some v ->
  goquery.Attr (goquery.SetAttr attr name v') name = Some v'.
Proof.
  induction attr as [|[k x] attr IH]; simpl; [discriminate|].
  destruct (String.eqb k name) eqn:E; simpl; rewrite E; auto.
Qed.

Lemma Attr_SetAttr_other (attr : list goquery.Attribute) (name name' v' : string) :
  name' <> name ->
  goquery.Attr (goquery.SetAttr attr name v') name' = goquery.Attr attr name'.
Proof.
  intros Hne. induction attr as [|[k x] attr IH]; simpl.
  - apply String.eqb_neq in Hne. rewrite String.eqb_sym, Hne. reflexivity.
  - destruct (String.eqb_spec k name) as [->|Hk]; simpl.
    + apply String.eqb_neq in Hne. rewrite String.eqb_sym, Hne. reflexivity.
    + now rewrite IH.
Qed.

(** The callback strips the attribute it is about and leaves the others. *)
Lemma Attr_strip_attr (attr : list goquery.Attribute) (name name' : string) :
  goquery.Attr (strip_attr attr name) name' =
  if String.eqb name' name
  then option_map strip_attr_value (goquery.Attr attr name')
  else goquery.Attr attr name'.
Proof.
  unfold strip_attr. destruct (String.eqb_spec name' name) as [->|Hne].
  - destruct (goquery.Attr attr name) as [v|] eqn:E; [|now rewrite E].
    destruct (strings.Contains v raw_marker) eqn:Hc.
    + now rewrite (Attr_SetAttr_same _ _ _ _ E).
    + rewrite E. simpl. unfold strip_attr_value.
      now rewrite ReplaceAll_absent.
  - destruct (goquery.Attr attr name) as [v|]; [|reflexivity].
    destruct (strings.Contains v raw_marker); [|reflexivity].
    now apply Attr_SetAttr_other.
Qed.

Lemma Attr_strip_element (attr : list goquery.Attribute) (name : string) :
  goquery.Attr (strip_element attr) name =
  if String.eqb name "src" || String.eqb name "href"
  then option_map strip_attr_value (goquery.Attr attr name)
  else goquery.Attr attr name.
Proof.
  unfold strip_element. rewrite Attr_strip_attr.
  destruct (String.eqb_spec name "href") as [->|Hh].
  - rewrite Attr_strip_attr. reflexivity.
  - rewrite Attr_strip_attr, orb_false_r. reflexivity.
Qed.

Lemma source_like_strip_element (tag : string) (attr : list goquery.Attribute) :
  goquery.source_like tag (strip_element attr) = goquery.source_like tag attr.
Proof.
  unfold goquery.source_like, goquery.has. rewrite !Attr_strip_element. simpl.
  destruct (goquery.Attr attr "src"), (goquery.Attr attr "href"); reflexivity.
Qed.

(** The elements the selector finds in the stripped document are those it
    finds in the parsed one, each with its attributes stripped. *)
Lemma Find_Each_strip_element (doc : goquery.Document) :
  goquery.Find (goquery.Each strip_element doc)
  = map strip_element (goquery.Find doc).
Proof.
  assert (Hnode : forall n,
             goquery.Find_node (goquery.Each_node strip_element n)
             = map strip_element (goquery.Find_node n)).
  { induction n as [data | tag attr children IH] using Node_induction; [reflexivity|].
    cbn [goquery.Each_node goquery.Find_node]. rewrite map_app. f_equal.
    - destruct (goquery.source_like tag attr) eqn:E.
      + now rewrite source_like_strip_element, E.
      + now rewrite E.
    - induction IH as [|c children Hc _ IHc]; [reflexivity|].
      cbn [map flat_map]. now rewrite map_app, Hc, IHc. }
  unfold goquery.Find, goquery.Each.
  induction doc as [|n doc IH]; [reflexivity|].
  cbn [map flat_map]. now rewrite map_app, Hnode, IH.
Qed.

(* ===================================================================== *)
(** * The raw-content suffix *)
(* ===================================================================== *)

(** C6, as amended.  Stripping the raw-content suffix is idempotent on every
    text that does not contain the marker right after another
    ["?raw=true"], that is, on every text without ["?raw=true?raw=true)"]:
    for such a text, with zero or more occurrences of the marker, stripping
    twice gives what stripping once gives. *)
Theorem strip_raw_suffix_idempotent (s : string) :
  strings.Contains s "?raw=true?raw=true)" = false ->
  strip_raw_suffix (strip_raw_suffix s) = strip_raw_suffix s.
Proof.
  intros H. unfold strip_raw_suffix, raw_marker_paren.
  apply (strip_twice "?raw=true" ")"%char); [discriminate | reflexivity | exact H].
Qed.

Lemma strip_raw_suffix_idempotent_witness :
  strings.Contains "![a](x.png?raw=true) and [b](y.svg?raw=true)" "?raw=true?raw=true)" = false
  /\ strip_raw_suffix (strip_raw_suffix "![a](x.png?raw=true) and [b](y.svg?raw=true)")
     = strip_raw_suffix "![a](x.png?raw=true) and [b](y.svg?raw=true)".
Proof.
  split; [reflexivity |].
  apply (strip_raw_suffix_idempotent "![a](x.png?raw=true) and [b](y.svg?raw=true)").
  reflexivity.
Defined.

(** C6, as stated, fails: the first pass over ["?raw=true?raw=true))"]
    removes the second marker and leaves ["?raw=true))"], where the second
    pass finds a marker again. *)
Lemma strip_raw_suffix_not_idempotent :
  strip_raw_suffix "?raw=true?raw=true))" = "?raw=true))"
  /\ strip_raw_suffix (strip_raw_suffix "?raw=true?raw=true))") = "))"
  /\ strip_raw_suffix (strip_raw_suffix "?raw=true?raw=true))")
     <> strip_raw_suffix "?raw=true?raw=true))".
Proof.
  repeat split; try reflexivity. vm_compute. discriminate.
Qed.

(* ===================================================================== *)
(** * Canonicalization of the document *)
(* ===================================================================== *)



(* ===================================================================== *)
(** * Extraction of the asset references *)
(* ===================================================================== *)


Lemma local_attr_In (attr : list goquery.Attribute) (name v : string) :
  In v (local_attr attr name) <->
  goquery.Attr attr name = Some v /\ strings.HasPrefix v "http" = false.
Proof.
  unfold local_attr. destruct (goquery.Attr attr name) as [x|].
  - destruct (strings.HasPrefix x "http") eqn:E; cbn [negb In]; split.
    + contradiction.
    + intros [H Hv]. injection H as ->. congruence.
    + intros [-> | []]. auto.
    + intros [H _]. injection H as ->. auto.
  - cbn. split; [contradiction | intros [H _]; discriminate].
Qed.


(** C2: the code at local paths.  The path of ["[x](pics/a.png)"] starts
    with [p], one of the bytes the pattern excludes at that position, and is
    not extracted; neither are paths starting with [s], [t], [h] or a slash.
    A path starting with another byte, as in ["[x](img/a.png)"], is
    extracted, and so is a remote URL behind such a byte.  Whatever the
    text, no extracted path starts with h, t, p, s, ?, : or /. *)
Theorem inline_pass_on_local_paths :
  inline_assets "[x](pics/a.png)" = []
  /\ inline_assets "[logo](static/logo.svg)" = []
  /\ inline_assets "[t](themes/dark.jpg)" = []
  /\ inline_assets "[h](help/tour.gif)" = []
  /\ inline_assets "[r](/docs/root.png)" = []
  /\ inline_assets "[x](img/a.png)" = ["img/a.png"]
  /\ inline_assets "[x]( http://h/a.png)" = [" http://h/a.png"]
  /\ first_byte_accepted "pics/a.png" = false
  /\ (forall content, forallb first_byte_accepted (inline_assets content) = true).
Proof.
  repeat split; try reflexivity. apply inline_assets_first_byte.
Qed.

(* ===================================================================== *)
(** * The command line *)
(* ===================================================================== *)

(** C3: the code at two positional arguments.  Whatever the URL and the
    revision, the run prints the usage line and exits with status 1, and the
    revision is never read; so it does without argument and with three or
    more.  With one positional argument the run goes on with the branch
    ["master"]. *)
Theorem main_with_revision_argument (w : World) (st : State) :
  (forall prog repoLink revision,
      main w [prog; repoLink; revision] st
      = (Exit 1, {| trace := trace st ++ [EvPrintln usage]; opened := opened st |}))
  /\ (forall prog repoLink revision more,
         main w (prog :: repoLink :: revision :: more) st
         = (Exit 1, {| trace := trace st ++ [EvPrintln usage]; opened := opened st |}))
  /\ (forall prog,
         main w [prog] st
         = (Exit 1, {| trace := trace st ++ [EvPrintln usage]; opened := opened st |}))
  /\ (forall prog repoLink,
         main w [prog; repoLink] st
         = match url_Parse w repoLink with
           | err e => (Panic e, st)
           | ok u =>
               if strings.HasPrefix (url.Host u) "github.com"
               then mirror w repoLink u "master" st
               else (Exit 1, {| trace := trace st ++ [EvPrintln not_github];
                                opened := opened st |})
           end).
Proof.
  repeat split; try reflexivity.
  intros prog repoLink. unfold main. cbn [List.length Nat.eqb negb nth].
  destruct (url_Parse w repoLink) as [u|e]; [|reflexivity].
  destruct (strings.HasPrefix (url.Host u) "github.com"); reflexivity.
Qed.

(* ===================================================================== *)
(** * Validation of the host *)
(* ===================================================================== *)

(** C4, as amended.  For every input URL whose host does not begin with
    ["github.com"], the run prints the diagnostic and exits with status 1
    without any HTTP request; for a URL whose host begins with
    ["github.com"], in particular for the host ["github.com"] itself, the
    validation passes and the run goes on with the default branch. *)
Theorem host_validation
        (w : World) (prog repoLink : string) (u : url.URL) (st : State) :
  url_Parse w repoLink = ok u ->
  (strings.HasPrefix (url.Host u) "github.com" = false ->
   main w [prog; repoLink] st
   = (Exit 1, {| trace := trace st ++ [EvPrintln not_github]; opened := opened st |})
   /\ exit_code (fst (main w [prog; repoLink] st)) <> 0%Z
   /\ requests (trace (snd (main w [prog; repoLink] st))) = requests (trace st))
  /\ (strings.HasPrefix (url.Host u) "github.com" = true ->
      main w [prog; repoLink] st = mirror w repoLink u "master" st)
  /\ (url.Host u = "github.com" ->
      main w [prog; repoLink] st = mirror w repoLink u "master" st).
Proof.
  intros Hparse.
  assert (Hmain : main w [prog; repoLink] st =
                  if negb (strings.HasPrefix (url.Host u) "github.com")
                  then (Exit 1, {| trace := trace st ++ [EvPrintln not_github];
                                   opened := opened st |})
                  else mirror w repoLink u "master" st).
  { unfold main. cbn [List.length Nat.eqb negb nth]. rewrite Hparse.
    destruct (strings.HasPrefix (url.Host u) "github.com"); reflexivity. }
  split; [|split].
  - intros H. rewrite Hmain, H. cbn [negb fst snd trace exit_code].
    split; [reflexivity|]. split; [discriminate|].
    unfold requests. rewrite flat_map_app. cbn. apply app_nil_r.
  - intros H. now rewrite Hmain, H.
  - intros H. rewrite Hmain, H. reflexivity.
Qed.

Lemma host_validation_witness :
  main scenario.img_world ["readtheirs"; "https://example.org/u/r"] initial
  = (Exit 1, {| trace := [EvPrintln not_github]; opened := [] |})
  /\ exit_code (fst (main scenario.img_world ["readtheirs"; "https://example.org/u/r"] initial))
     <> 0%Z
  /\ requests (trace (snd (main scenario.img_world
                             ["readtheirs"; "https://example.org/u/r"] initial)))
     = requests (trace initial).
Proof.
  apply (proj1 (host_validation scenario.img_world "readtheirs" "https://example.org/u/r"
                  {| url.Host := "example.org"; url.Path := "/u/r";
                     url.text := "https://example.org/u/r" |}
                  initial eq_refl)).
  reflexivity.
Defined.

(** C4, as stated, fails: the host [github.com.evil.org] is not the host of
    the hosting service, and the run requests the document from it and
    completes. *)
Lemma host_with_github_prefix_is_accepted :
  url_Parse scenario.other_host_world "https://github.com.evil.org/u/r"
  = ok {| url.Host := "github.com.evil.org"; url.Path := "/u/r";
          url.text := "https://github.com.evil.org/u/r" |}
  /\ String.eqb "github.com.evil.org" "github.com" = false
  /\ fst (main scenario.other_host_world
            ["readtheirs"; "https://github.com.evil.org/u/r"] initial)
     = Return tt
  /\ requests (trace (snd (main scenario.other_host_world
                             ["readtheirs"; "https://github.com.evil.org/u/r"] initial)))
     = ["https://github.com.evil.org/u/r/raw/master/README.md"].
Proof. repeat split; reflexivity. Qed.

(* ===================================================================== *)
(** * The Document Fetcher *)
(* ===================================================================== *)

(** Unfolds the calls of a monadic computation. *)
Ltac unfold_calls :=
  unfold bind, ret, panic, os_Exit, fmt_Println, fmt_Printf, emit,
    http_Get, os_MkdirAll, os_Create, io_Copy, os_Chdir, cmd_Run, Close in *.

Lemma Handle_eqb_refl (h : Handle) : Handle_eqb h h = true.
Proof. destruct h; simpl; now rewrite Nat.eqb_refl, String.eqb_refl. Qed.

Lemma close_head (h : Handle) (l : list Handle) :
  filter (fun h' => negb (Handle_eqb h h')) (h :: l)
  = filter (fun h' => negb (Handle_eqb h h')) l.
Proof. cbn [filter]. now rewrite Handle_eqb_refl. Qed.

Lemma fetch_readme_run (w : World) (u : url.URL) (b : string) (st : State) :
  fetch_readme w u b st =
  match net_Get w (trace st) (readme_url u b) with
  | err e =>
      (Return (err e),
       {| trace := trace st ++ [EvGet (readme_url u b)]; opened := opened st |})
  | ok resp =>
      (Return
         (if negb (Z.eqb (StatusCode resp) StatusOK)
          then err (Errorf "failed to retrieve the README.md file, status code: %d"
                           [ArgInt (StatusCode resp)])
          else match BodyErr resp with
               | Some e => err (Errorf "failed to read response body: %v" [ArgError e])
               | None => ok (Body resp)
               end),
       after_fetch (readme_url u b) st)
  end.
Proof.
  unfold fetch_readme, after_fetch. unfold_calls.
  destruct (net_Get w (trace st) (readme_url u b)) as [resp|e]; [|reflexivity].
  destruct (negb (Z.eqb (StatusCode resp) StatusOK)); [|destruct (BodyErr resp)];
    cbn [trace opened]; rewrite close_head, <- app_assoc; reflexivity.
Qed.





(** C7, as amended.  The fetch of the document fails exactly when the GET
    suffers a transport error, on the request or while the body is read, or
    returns a status other than 200; a response with status 200 whose body
    is read is accepted and [getReadme] goes on to parse it; and an error of
    [getReadme] makes the whole run panic. *)
Theorem document_fetch_accepts_only_200
        (w : World) (repoLink : string) (u : url.URL) (b : string) (st : State) :
  ((exists e, fst (fetch_readme w u b st) = Return (err e)) <->
   (exists e, net_Get w (trace st) (readme_url u b) = err e)
   \/ (exists resp, net_Get w (trace st) (readme_url u b) = ok resp
                    /\ (StatusCode resp <> 200%Z \/ BodyErr resp <> None)))
  /\ (forall resp,
         net_Get w (trace st) (readme_url u b) = ok resp ->
         StatusCode resp = 200%Z -> BodyErr resp = None ->
         getReadme w u b st
         = parse_and_persist w u (Body resp) (after_fetch (readme_url u b) st))
  /\ (forall e,
         fst (getReadme w u b (snd (os_MkdirAll w
                (filepath_Join w ["."; filepath_Base w (url.Path u)]) st)))
         = Return (err e) ->
         fst (mirror w repoLink u b st) = Panic e).
Proof.
  split; [|split].
  - rewrite fetch_readme_run.
    destruct (net_Get w (trace st) (readme_url u b)) as [resp|e]; cbn [fst].
    + destruct (Z.eqb_spec (StatusCode resp) StatusOK) as [Hs|Hs]; cbn [negb].
      * destruct (BodyErr resp) as [e|] eqn:Hb.
        -- split; [intros _ | eauto].
           right. exists resp. split; [reflexivity|]. right. congruence.
        -- split; [intros [e H]; discriminate|].
           intros [[e H] | (resp' & H & [Hne | Hne])]; try discriminate.
           ++ injection H as <-. contradiction.
           ++ injection H as <-. congruence.
      * split; [intros _ | eauto].
        right. exists resp. split; [reflexivity|]. left. assumption.
    + split; eauto.
  - intros resp Hget Hs Hb. unfold getReadme, bind.
    rewrite fetch_readme_run, Hget, Hs, Hb. reflexivity.
  - intros e. unfold mirror, bind at 1. unfold os_MkdirAll at 2. cbn [snd].
    unfold bind at 1.
    destruct (getReadme w u b _) as [[[doc|e']| |] st1]; cbn [fst]; try discriminate.
    intros H. injection H as ->. reflexivity.
Qed.

Lemma document_fetch_accepts_only_200_witness :
  getReadme scenario.img_world scenario.repo "master" initial
  = parse_and_persist scenario.img_world scenario.repo scenario.img_html
      (after_fetch (readme_url scenario.repo "master") initial).
Proof.
  apply (proj1 (proj2 (document_fetch_accepts_only_200
                         scenario.img_world "https://github.com/u/r"
                         scenario.repo "master" initial))
               (scenario.found scenario.img_html));
    reflexivity.
Defined.

(** C7, as stated, fails: a response with status 204 is rejected, and the
    run panics. *)
Lemma status_204_is_rejected :
  fst (getReadme scenario.no_content_world scenario.repo "master" initial)
  = Return (err (Errorf "failed to retrieve the README.md file, status code: %d"
                        [ArgInt 204]))
  /\ fst (main scenario.no_content_world ["readtheirs"; "https://github.com/u/r"] initial)
     = Panic (Errorf "failed to retrieve the README.md file, status code: %d"
                     [ArgInt 204]).
Proof. split; reflexivity. Qed.

(* ===================================================================== *)
(** * The retrieval loop *)
(* ===================================================================== *)

Lemma requests_app (l1 l2 : list Event) :
  requests (l1 ++ l2) = requests l1 ++ requests l2.
Proof. apply flat_map_app. Qed.

Lemma closes_app (l1 l2 : list Event) :
  closes (l1 ++ l2) = closes l1 ++ closes l2.
Proof. apply flat_map_app. Qed.

(** One iteration returns, whatever the world answers: it makes the request
    of its asset and no other, closes nothing, and what it opens is open
    when it ends and deferred. *)
Lemma download_one_returns
      (w : World) (u : url.URL) (b dir asset : string)
      (deferred : list Handle) (st : State) :
  exists hs evs,
    download_one w u b dir asset deferred st
    = (Return (hs ++ deferred),
       {| trace := trace st ++ EvGet (asset_url u b asset) :: evs;
          opened := hs ++ opened st |})
    /\ requests evs = [] /\ closes evs = [].
Proof.
  unfold download_one. unfold_calls.
  destruct (net_Get w (trace st) (asset_url u b asset)) as [resp|e].
  - destruct (negb (Z.eqb (StatusCode resp) StatusOK)).
    + exists [BodyOf (List.length (trace st)) (asset_url u b asset)]. eexists.
      cbn [trace opened]. rewrite <- app_assoc. split; [reflexivity|]. split; reflexivity.
    + cbn [trace opened].
      destruct (fs_Create w _ _) as [e|].
      * exists [BodyOf (List.length (trace st)) (asset_url u b asset)]. eexists.
        cbn [trace opened]. rewrite <- !app_assoc. split; [reflexivity|]. split; reflexivity.
      * cbn [trace opened].
        destruct (fs_Write w _ _ _) as [[n e]|]; [|destruct (BodyErr resp) as [e|]];
          eexists [_; _]; eexists;
          cbn [trace opened]; rewrite <- !app_assoc;
          (split; [reflexivity|]); split; reflexivity.
  - exists []. eexists. cbn [trace opened]. rewrite <- app_assoc.
    split; [reflexivity|]. split; reflexivity.
Qed.

(** The loop returns, whatever the world answers: every asset is requested,
    in order, nothing is closed, and everything the loop opened is open when
    it ends. *)
Lemma download_loop_returns
      (w : World) (u : url.URL) (b dir : string) (assets : list string)
      (deferred : list Handle) (st : State) :
  exists hs evs,
    download_loop w u b dir assets deferred st
    = (Return (hs ++ deferred),
       {| trace := trace st ++ evs; opened := hs ++ opened st |})
    /\ requests evs = map (asset_url u b) assets /\ closes evs = [].
Proof.
  revert deferred st. induction assets as [|asset assets IH]; intros deferred st.
  - exists [], []. cbn. rewrite app_nil_r. destruct st; auto.
  - cbn [download_loop]. unfold bind.
    destruct (download_one_returns w u b dir asset deferred st)
      as (hs1 & evs1 & -> & Hr1 & Hc1).
    destruct (IH (hs1 ++ deferred)
                 {| trace := trace st ++ EvGet (asset_url u b asset) :: evs1;
                    opened := hs1 ++ opened st |})
      as (hs2 & evs2 & -> & Hr2 & Hc2).
    exists (hs2 ++ hs1), (EvGet (asset_url u b asset) :: evs1 ++ evs2).
    cbn [trace opened]. rewrite <- !app_assoc. split; [reflexivity|].
    cbn [requests closes flat_map app map].
    fold (requests (evs1 ++ evs2)). fold (closes (evs1 ++ evs2)).
    rewrite requests_app, closes_app, Hr1, Hr2, Hc1, Hc2. auto.
Qed.



(** The deferred calls return, and close the deferred handles, last
    deferred first. *)
Lemma run_deferred_returns (deferred : list Handle) (st : State) :
  exists st',
    run_deferred deferred st = (Return tt, st')
    /\ trace st' = trace st ++ map EvClose deferred.
Proof.
  revert st. induction deferred as [|h l IH]; intros st.
  - exists st. cbn. now rewrite app_nil_r.
  - cbn [run_deferred]. unfold bind, Close.
    destruct (IH {| trace := trace st ++ [EvClose h];
                    opened := filter (fun h' => negb (Handle_eqb h h')) (opened st) |})
      as (st' & -> & Htr).
    exists st'. split; [reflexivity|]. rewrite Htr. cbn [trace map].
    now rewrite <- app_assoc.
Qed.



(** C10: the code at a document with three local images.  No handle is
    closed inside the loop: when the second iteration starts, the file and
    the body of the first asset are open, and every close comes after the
    last asset, in the reverse order of the deferred calls.  This holds for
    every list of assets and every world: the loop closes nothing, and all
    it opened is open when it ends. *)
Theorem closes_wait_for_the_return :
  downloadAssets scenario.two_of_three_world scenario.three_images
                 scenario.repo "master" initial
  = (Return None,
     {| trace :=
          [EvMkdirAll "r";
           EvGet "https://github.com/u/r/raw/master/a.png";
           EvMkdirAll "r"; EvCreate "r/a.png"; EvWrite "r/a.png" "AAAA";
           EvGet "https://github.com/u/r/raw/master/img/missing.png";
           EvPrintf ("unexpected status code %d for %s" ++ nl)
                    [ArgInt 404;
                     ArgString "https://github.com/u/r/raw/master/img/missing.png"];
           EvGet "https://github.com/u/r/raw/master/img/c.png";
           EvMkdirAll "r/img"; EvCreate "r/img/c.png"; EvWrite "r/img/c.png" "CC";
           EvClose (FileOf 9 "r/img/c.png");
           EvClose (BodyOf 7 "https://github.com/u/r/raw/master/img/c.png");
           EvClose (BodyOf 5 "https://github.com/u/r/raw/master/img/missing.png");
           EvClose (FileOf 3 "r/a.png");
           EvClose (BodyOf 1 "https://github.com/u/r/raw/master/a.png")];
        opened := [] |})
  /\ opened (snd (download_loop scenario.two_of_three_world scenario.repo "master" "r"
                    ["a.png"] [] initial))
     = [FileOf 2 "r/a.png"; BodyOf 0 "https://github.com/u/r/raw/master/a.png"]
  /\ (forall (w : World) (u : url.URL) (b dir : string) (assets : list string)
             (deferred : list Handle) (st : State),
         exists hs evs,
           download_loop w u b dir assets deferred st
           = (Return (hs ++ deferred),
              {| trace := trace st ++ evs; opened := hs ++ opened st |})
           /\ closes evs = []).
Proof.
  split; [reflexivity|]. split; [reflexivity|].
  intros w u b dir assets deferred st.
  destruct (download_loop_returns w u b dir assets deferred st)
    as (hs & evs & E & _ & Hc).
  exists hs, evs. auto.
Qed.

(* ===================================================================== *)
(** * Further properties: the handles *)
(* ===================================================================== *)

Lemma well_formed_grows (st st' : State) (evs : list Event) :
  well_formed st -> opened st' = opened st -> trace st' = trace st ++ evs ->
  well_formed st'.
Proof.
  unfold well_formed. intros H Ho Ht. rewrite Ho, Ht, length_app.
  eapply Forall_impl; [|exact H]. cbn. intros h Hh. lia.
Qed.

Lemma Handle_eqb_id (h h' : Handle) :
  Handle_eqb h h' = true -> handle_id h = handle_id h'.
Proof.
  destruct h, h'; cbn; try discriminate;
    intros H; apply andb_true_iff in H as [H _]; now apply Nat.eqb_eq.
Qed.

(** Closing a handle that is younger than all the open ones leaves them
    open. *)
Lemma close_fresh (h : Handle) (n : nat) (l : list Handle) :
  Forall (fun h' => handle_id h' < n) l -> n <= handle_id h ->
  filter (fun h' => negb (Handle_eqb h h')) l = l.
Proof.
  intros Hl Hn. induction Hl as [|h' l Hh' _ IH]; [reflexivity|].
  cbn [filter]. destruct (Handle_eqb h h') eqn:E.
  - apply Handle_eqb_id in E. lia.
  - cbn [negb]. now rewrite IH.
Qed.

Lemma tidy_ret {A : Type} (a : A) : tidy (ret a).
Proof. intros st _. split; [reflexivity|]. exists []. cbn. now rewrite app_nil_r. Qed.

Lemma tidy_panic {A : Type} (e : error) : tidy (@panic A e).
Proof. intros st _. split; [reflexivity|]. exists []. cbn. now rewrite app_nil_r. Qed.

Lemma tidy_os_Exit {A : Type} (code : Z) : tidy (@os_Exit A code).
Proof. intros st _. split; [reflexivity|]. exists []. cbn. now rewrite app_nil_r. Qed.

Lemma tidy_emit (e : Event) : tidy (emit e).
Proof. intros st _. split; [reflexivity|]. now exists [e]. Qed.

Lemma tidy_os_MkdirAll (w : World) (path : string) : tidy (os_MkdirAll w path).
Proof. intros st _. split; [reflexivity|]. now exists [EvMkdirAll path]. Qed.

Lemma tidy_os_Chdir (w : World) (path : string) : tidy (os_Chdir w path).
Proof. intros st _. split; [reflexivity|]. now exists [EvChdir path]. Qed.

Lemma tidy_cmd_Run (w : World) (name : string) (args : list string) :
  tidy (cmd_Run w name args).
Proof. intros st _. split; [reflexivity|]. now exists [EvRun name args]. Qed.

Lemma tidy_io_Copy (w : World) (path data : string) (readerr : option error) :
  tidy (io_Copy w path data readerr).
Proof.
  intros st _. unfold io_Copy.
  destruct (fs_Write w (trace st) path data) as [[n e]|]; cbn;
    (split; [reflexivity | eauto]).
Qed.

Lemma tidy_bind {A B : Type} (m : M A) (k : A -> M B) :
  tidy m -> (forall a, tidy (k a)) -> tidy (bind m k).
Proof.
  intros Hm Hk st Hst. unfold bind.
  destruct (Hm st Hst) as (Ho & evs & Ht).
  destruct (m st) as [[a|code|e] st1]; cbn [snd] in *;
    [|split; eauto|split; eauto].
  assert (Hst1 : well_formed st1) by (eapply well_formed_grows; eauto).
  destruct (Hk a st1 Hst1) as (Ho2 & evs2 & Ht2).
  split; [congruence|]. exists (evs ++ evs2). rewrite Ht2, Ht. symmetry. apply app_assoc.
Qed.

(** A call that opens a handle, followed by a computation that closes it on
    every path. *)
Lemma tidy_fetch_readme (w : World) (u : url.URL) (b : string) :
  tidy (fetch_readme w u b).
Proof.
  intros st Hst. rewrite fetch_readme_run.
  destruct (net_Get w (trace st) (readme_url u b)) as [resp|e]; cbn [snd].
  - unfold after_fetch. cbn [trace opened]. split; [|eauto].
    apply (close_fresh _ (List.length (trace st))); [exact Hst | cbn; lia].
  - cbn [trace opened]. split; [reflexivity | eauto].
Qed.

Lemma tidy_parse_and_persist (w : World) (u : url.URL) (raw : string) :
  tidy (parse_and_persist w u raw).
Proof.
  intros st Hst. unfold parse_and_persist. unfold_calls.
  destruct (goquery_NewDocumentFromReader w raw) as [doc|e];
    [|cbn; split; [reflexivity | eauto]].
  destruct (fs_Create w (trace st) _) as [e|]; [cbn; split; [reflexivity | eauto]|].
  cbn [trace opened].
  destruct (fs_Write w _ _ _) as [[n e]|]; cbn [snd trace opened];
    rewrite close_head, <- !app_assoc;
    (split; [apply (close_fresh _ (List.length (trace st)));
             [exact Hst | cbn; lia] | eauto]).
Qed.

Lemma tidy_getReadme (w : World) (u : url.URL) (b : string) :
  tidy (getReadme w u b).
Proof.
  unfold getReadme. apply tidy_bind; [apply tidy_fetch_readme|].
  intros [raw|e]; [apply tidy_parse_and_persist | apply tidy_ret].
Qed.

(** One iteration opens only handles younger than the trace it starts
    from. *)
Lemma download_one_opens
      (w : World) (u : url.URL) (b dir asset : string)
      (deferred : list Handle) (st : State) :
  exists hs evs,
    download_one w u b dir asset deferred st
    = (Return (hs ++ deferred),
       {| trace := trace st ++ evs; opened := hs ++ opened st |})
    /\ Forall (fun h => List.length (trace st) <= handle_id h) hs.
Proof.
  unfold download_one. unfold_calls.
  destruct (net_Get w (trace st) (asset_url u b asset)) as [resp|e].
  - destruct (negb (Z.eqb (StatusCode resp) StatusOK)).
    + exists [BodyOf (List.length (trace st)) (asset_url u b asset)]. eexists.
      cbn [trace opened]. rewrite <- app_assoc. split; [reflexivity|].
      repeat constructor.
    + cbn [trace opened].
      destruct (fs_Create w _ _) as [e|].
      * exists [BodyOf (List.length (trace st)) (asset_url u b asset)]. eexists.
        cbn [trace opened]. rewrite <- !app_assoc. split; [reflexivity|].
        repeat constructor.
      * cbn [trace opened].
        destruct (fs_Write w _ _ _) as [[n e]|]; [|destruct (BodyErr resp) as [e|]];
          eexists [_; _]; eexists;
          cbn [trace opened]; rewrite <- !app_assoc;
          (split; [reflexivity|]);
          repeat constructor; cbn; rewrite !length_app; cbn; lia.
  - exists []. eexists. cbn [trace opened]. rewrite <- app_assoc.
    split; [reflexivity | constructor].
Qed.

Lemma download_loop_opens
      (w : World) (u : url.URL) (b dir : string) (assets : list string)
      (deferred : list Handle) (st : State) :
  exists hs evs,
    download_loop w u b dir assets deferred st
    = (Return (hs ++ deferred),
       {| trace := trace st ++ evs; opened := hs ++ opened st |})
    /\ Forall (fun h => List.length (trace st) <= handle_id h) hs.
Proof.
  revert deferred st. induction assets as [|asset assets IH]; intros deferred st.
  - exists [], []. cbn. rewrite app_nil_r. destruct st; auto.
  - cbn [download_loop]. unfold bind.
    destruct (download_one_opens w u b dir asset deferred st)
      as (hs1 & evs1 & -> & H1).
    destruct (IH (hs1 ++ deferred)
                 {| trace := trace st ++ evs1; opened := hs1 ++ opened st |})
      as (hs2 & evs2 & -> & H2).
    exists (hs2 ++ hs1), (evs1 ++ evs2).
    cbn [trace opened] in *. rewrite <- !app_assoc. split; [reflexivity|].
    apply Forall_app. split; [|assumption].
    eapply Forall_impl; [|exact H2]. cbn. intros h. rewrite length_app. lia.
Qed.

(** The deferred calls leave open what is none of the deferred handles. *)
Lemma run_deferred_opened (deferred : list Handle) (st : State) :
  opened (snd (run_deferred deferred st))
  = filter (fun h' => negb (existsb (fun h => Handle_eqb h h') deferred)) (opened st).
Proof.
  revert st. induction deferred as [|h l IH]; intros st.
  - cbn. induction (opened st) as [|x o IHo]; [reflexivity|]. cbn. now rewrite <- IHo.
  - cbn [run_deferred]. unfold bind, Close. rewrite IH. cbn [opened existsb].
    induction (opened st) as [|x o IHo]; [reflexivity|].
    cbn [filter]. destruct (Handle_eqb h x); cbn [negb orb filter].
    + apply IHo.
    + destruct (existsb _ l); cbn [negb]; now rewrite IHo.
Qed.

(** Closing the handles [hs], all younger than the handles of [o], leaves
    [o] of [hs ++ o]. *)
Lemma close_all_young (hs o : list Handle) (n : nat) :
  Forall (fun h => n <= handle_id h) hs ->
  Forall (fun h => handle_id h < n) o ->
  filter (fun h' => negb (existsb (fun h => Handle_eqb h h') hs)) (hs ++ o) = o.
Proof.
  intros Hhs Ho. rewrite filter_app.
  replace (filter _ hs) with (@nil Handle).
  - cbn [app]. induction Ho as [|x o Hx _ IH]; [reflexivity|].
    cbn [filter]. destruct (existsb _ hs) eqn:E.
    + apply existsb_exists in E as (h & Hin & Heq).
      apply Handle_eqb_id in Heq. rewrite Forall_forall in Hhs.
      specialize (Hhs h Hin). cbn in Hhs. lia.
    + cbn [negb]. now rewrite IH.
  - symmetry. clear.
    assert (H : forall l, incl l hs ->
               filter (fun h' => negb (existsb (fun h => Handle_eqb h h') hs)) l = []).
    { induction l as [|x l IH]; intros Hl; [reflexivity|].
      cbn [filter].
      assert (E : existsb (fun h => Handle_eqb h x) hs = true).
      { apply existsb_exists. exists x. split; [apply Hl; now left|].
        apply Handle_eqb_refl. }
      rewrite E. cbn [negb]. apply IH. intros y Hy. apply Hl. now right. }
    apply H. apply incl_refl.
Qed.

(** The loop followed by the deferred calls. *)
Lemma tidy_download_then_close
      (w : World) (u : url.URL) (b dir : string) (assets : list string) :
  tidy (deferred <- download_loop w u b dir assets [] ;;
        run_deferred deferred ;; ret (@None error)).
Proof.
  intros st Hst. unfold bind.
  destruct (download_loop_opens w u b dir assets [] st) as (hs & evs & -> & Hhs).
  rewrite app_nil_r.
  pose proof (run_deferred_opened hs
                {| trace := trace st ++ evs; opened := hs ++ opened st |}) as Hopen.
  destruct (run_deferred_returns hs
              {| trace := trace st ++ evs; opened := hs ++ opened st |})
    as (st3 & E & Htr).
  rewrite E in *. cbn [snd trace opened ret] in *. split.
  - rewrite Hopen.
    apply (close_all_young hs (opened st) (List.length (trace st)));
      [exact Hhs | exact Hst].
  - rewrite Htr, <- !app_assoc. eauto.
Qed.

Lemma tidy_downloadAssets
      (w : World) (readme : goquery.Document) (u : url.URL) (b : string) :
  tidy (downloadAssets w readme u b).
Proof.
  unfold downloadAssets.
  destruct (goquery_Html w readme) as [content|e]; [|apply tidy_panic].
  destruct (Nat.eqb _ 0); [apply tidy_ret|].
  apply tidy_bind; [apply tidy_os_MkdirAll|].
  intros [e|]; [apply tidy_ret | apply tidy_download_then_close].
Qed.

Lemma tidy_mirror (w : World) (repoLink : string) (u : url.URL) (b : string) :
  tidy (mirror w repoLink u b).
Proof.
  unfold mirror.
  apply tidy_bind; [apply tidy_os_MkdirAll|]. intros _.
  apply tidy_bind; [apply tidy_getReadme|]. intros [readme|e]; [|apply tidy_panic].
  apply tidy_bind; [apply tidy_downloadAssets|]. intros [e|]; [apply tidy_panic|].
  apply tidy_bind; [apply tidy_os_Chdir|]. intros _.
  intros st Hst. unfold_calls.
  destruct (fs_Create w (trace st) "expand.sh") as [e|];
    [cbn; split; [reflexivity | eauto]|].
  cbn [trace opened].
  destruct (fs_Write w _ _ _) as [[n e]|]; cbn [trace opened];
    [|destruct (exec_Run w _ _ _) as [e|]];
    cbn [snd trace opened]; rewrite close_head, <- !app_assoc;
    (split; [apply (close_fresh _ (List.length (trace st)));
             [exact Hst | cbn; lia] | eauto]).
Qed.

Lemma tidy_main (w : World) (Args : list string) : tidy (main w Args).
Proof.
  unfold main.
  destruct (negb (Nat.eqb (List.length Args) 2)).
  { apply tidy_bind; [apply tidy_emit | intros _; apply tidy_os_Exit]. }
  destruct (url_Parse w (nth 1 Args EmptyString)) as [u|e]; [|apply tidy_panic].
  destruct (negb (strings.HasPrefix (url.Host u) "github.com")).
  - apply tidy_bind; [apply tidy_emit | intros _; apply tidy_os_Exit].
  - apply tidy_mirror.
Qed.

(** X1.  Whatever the world answers and however the run ends (return, exit
    or panic), a run that starts with nothing open ends with nothing open:
    every response body and every file it opened has been closed. *)
Theorem main_leaves_nothing_open (w : World) (Args : list string) :
  opened (snd (main w Args initial)) = [].
Proof.
  apply (tidy_main w Args initial). constructor.
Qed.

(** X2.  [downloadAssets] closes before it returns every body and every
    file its loop opened, on each of its paths: from a state whose open
    handles are older than the trace, it ends with exactly those open. *)
Theorem downloadAssets_closes_what_it_opened
        (w : World) (readme : goquery.Document) (u : url.URL) (b : string)
        (st : State) :
  well_formed st ->
  opened (snd (downloadAssets w readme u b st)) = opened st.
Proof.
  intros Hst. apply (tidy_downloadAssets w readme u b st Hst).
Qed.

Lemma downloadAssets_closes_what_it_opened_witness :
  well_formed initial
  /\ opened (snd (downloadAssets scenario.two_of_three_world scenario.three_images
                    scenario.repo "master" initial)) = opened initial.
Proof.
  split; [constructor|].
  apply (downloadAssets_closes_what_it_opened
           scenario.two_of_three_world scenario.three_images scenario.repo "master"
           initial).
  constructor.
Defined.

(* ===================================================================== *)
(** * Further properties: what a run does to the world *)
(* ===================================================================== *)

Lemma only_ret {A : Type} (P : Event -> Prop) (a : A) : only P (ret a).
Proof. intros st. exists []. cbn. now rewrite app_nil_r. Qed.



Lemma only_emit (P : Event -> Prop) (e : Event) : P e -> only P (emit e).
Proof. intros H st. exists [e]. cbn. auto. Qed.

Lemma only_http_Get (P : Event -> Prop) (w : World) (u : string) :
  P (EvGet u) -> only P (http_Get w u).
Proof.
  intros H st. exists [EvGet u]. unfold http_Get.
  destruct (net_Get w (trace st) u); cbn; auto.
Qed.

Lemma only_os_MkdirAll (P : Event -> Prop) (w : World) (path : string) :
  P (EvMkdirAll path) -> only P (os_MkdirAll w path).
Proof. intros H st. exists [EvMkdirAll path]. cbn. auto. Qed.

Lemma only_os_Create (P : Event -> Prop) (w : World) (path : string) :
  P (EvCreate path) -> only P (os_Create w path).
Proof.
  intros H st. exists [EvCreate path]. unfold os_Create.
  destruct (fs_Create w (trace st) path); cbn; auto.
Qed.

Lemma only_io_Copy (P : Event -> Prop) (w : World) (path data : string)
      (readerr : option error) :
  (forall written, P (EvWrite path written)) -> only P (io_Copy w path data readerr).
Proof.
  intros H st. unfold io_Copy.
  destruct (fs_Write w (trace st) path data) as [[n e]|]; eexists; cbn; eauto.
Qed.



Lemma only_Close (P : Event -> Prop) (h : Handle) : P (EvClose h) -> only P (Close h).
Proof. intros H st. exists [EvClose h]. cbn. auto. Qed.

Lemma only_bind {A B : Type} (P : Event -> Prop) (m : M A) (k : A -> M B) :
  only P m -> (forall a, only P (k a)) -> only P (bind m k).
Proof.
  intros Hm Hk st. unfold bind. destruct (Hm st) as (evs & Ht & HP).
  destruct (m st) as [[a|code|e] st1]; cbn [snd] in *; eauto.
  destruct (Hk a st1) as (evs2 & Ht2 & HP2).
  exists (evs ++ evs2). rewrite Ht2, Ht, app_assoc. split; [reflexivity|].
  apply Forall_app. auto.
Qed.

Lemma only_impl {A : Type} (P Q : Event -> Prop) (m : M A) :
  (forall e, P e -> Q e) -> only P m -> only Q m.
Proof.
  intros H Hm st. destruct (Hm st) as (evs & Ht & HP).
  exists evs. split; [assumption|]. eapply Forall_impl; eauto.
Qed.

Lemma only_run_deferred (P : Event -> Prop) (deferred : list Handle) :
  (forall h, P (EvClose h)) -> only P (run_deferred deferred).
Proof.
  intros H. induction deferred as [|h l IH]; [apply only_ret|].
  cbn [run_deferred]. apply only_bind; [now apply only_Close | intros _; exact IH].
Qed.

Lemma only_download_one
      (w : World) (u : url.URL) (b dir asset : string) (deferred : list Handle) :
  only (download_event w u b dir [asset]) (download_one w u b dir asset deferred).
Proof.
  assert (Hin : In asset [asset]) by now left.
  unfold download_one.
  apply only_bind; [apply only_http_Get; cbn; eauto|].
  intros [[resp body]|e].
  - destruct (negb (Z.eqb (StatusCode resp) StatusOK)).
    + apply only_bind; [now apply only_emit | intros _; apply only_ret].
    + apply only_bind; [apply only_os_MkdirAll; cbn; eauto|]. intros _.
      apply only_bind; [apply only_os_Create; cbn; eauto|].
      intros [file|e].
      * apply only_bind; [apply only_io_Copy; cbn; eauto|].
        intros [e|]; [|apply only_ret].
        apply only_bind; [now apply only_emit | intros _; apply only_ret].
      * apply only_bind; [now apply only_emit | intros _; apply only_ret].
  - apply only_bind; [now apply only_emit | intros _; apply only_ret].
Qed.

Lemma download_event_incl
      (w : World) (u : url.URL) (b dir : string) (l l' : list string) (e : Event) :
  incl l l' -> download_event w u b dir l e -> download_event w u b dir l' e.
Proof.
  intros Hl. destruct e; cbn; auto; intros (a & Ha & ->); eauto.
Qed.

Lemma only_download_loop
      (w : World) (u : url.URL) (b dir : string) (assets : list string)
      (deferred : list Handle) :
  only (download_event w u b dir assets) (download_loop w u b dir assets deferred).
Proof.
  revert deferred. induction assets as [|asset assets IH]; intros deferred.
  - apply only_ret.
  - cbn [download_loop]. apply only_bind.
    + eapply only_impl; [|apply only_download_one].
      intros e. apply download_event_incl. intros x [<- | []]. now left.
    + intros deferred'. eapply only_impl; [|apply IH].
      intros e. apply download_event_incl. intros x Hx. now right.
Qed.


Lemma only_downloadAssets
      (w : World) (readme : goquery.Document) (u : url.URL) (b : string)
      (content : string) :
  goquery_Html w readme = ok content ->
  only (fun e =>
          e = EvMkdirAll (filepath_Join w ["."; filepath_Base w (url.Path u)])
          \/ download_event w u b (filepath_Join w ["."; filepath_Base w (url.Path u)])
               (structural_assets readme ++ inline_assets content) e)
       (downloadAssets w readme u b).
Proof.
  intros Hhtml. unfold downloadAssets. rewrite Hhtml.
  destruct (Nat.eqb _ 0); [apply only_ret|].
  apply only_bind; [apply only_os_MkdirAll; now left|].
  intros [e|]; [apply only_ret|].
  apply only_bind.
  - eapply only_impl; [|apply only_download_loop]. intros e He. now right.
  - intros deferred. apply only_bind; [|intros _; apply only_ret].
    apply only_run_deferred. intros h. right. exact I.
Qed.










(* ===================================================================== *)
(** * Further properties: the Asset Retriever *)
(* ===================================================================== *)

Lemma requests_closes (hs : list Handle) : requests (map EvClose hs) = [].
Proof. induction hs as [|h hs IH]; [reflexivity | exact IH]. Qed.

(** X5.  Once the destination root exists, [downloadAssets] requests every
    extracted reference, once per extraction and in extraction order: the
    structural references, then the inline ones; a path found by both
    passes, or twice by one, is requested again. *)
Theorem downloadAssets_requests_every_reference
        (w : World) (readme : goquery.Document) (u : url.URL) (b content : string)
        (st : State) :
  goquery_Html w readme = ok content ->
  fs_MkdirAll w (trace st) (filepath_Join w ["."; filepath_Base w (url.Path u)])
  = None ->
  requests (trace (snd (downloadAssets w readme u b st)))
  = requests (trace st)
    ++ map (asset_url u b) (structural_assets readme ++ inline_assets content).
Proof.
  intros Hhtml Hmkdir. unfold downloadAssets. rewrite Hhtml.
  destruct (structural_assets readme ++ inline_assets content) as [|a assets] eqn:E.
  { cbn. now rewrite app_nil_r. }
  cbn [List.length Nat.eqb]. unfold bind at 1. unfold os_MkdirAll. rewrite Hmkdir.
  unfold bind.
  destruct (download_loop_returns w u b
              (filepath_Join w ["."; filepath_Base w (url.Path u)]) (a :: assets) []
              {| trace := trace st ++
                   [EvMkdirAll (filepath_Join w ["."; filepath_Base w (url.Path u)])];
                 opened := opened st |})
    as (hs & evs & -> & Hreq & _).
  destruct (run_deferred_returns (hs ++ [])
              {| trace := (trace st ++
                   [EvMkdirAll (filepath_Join w ["."; filepath_Base w (url.Path u)])])
                   ++ evs;
                 opened := hs ++ opened st |}) as (st3 & E' & Htr).
  cbn [trace opened] in *. rewrite E'.
  cbn [snd trace ret] in *. rewrite Htr, !requests_app, Hreq, requests_closes.
  cbn [requests flat_map app]. now rewrite !app_nil_r.
Qed.

Lemma downloadAssets_requests_every_reference_witness :
  requests (trace (snd (downloadAssets scenario.two_of_three_world
                          scenario.three_images scenario.repo "master" initial)))
  = requests (trace initial)
    ++ map (asset_url scenario.repo "master")
         (structural_assets scenario.three_images
          ++ inline_assets
               (String.concat EmptyString (map scenario.render scenario.three_images))).
Proof.
  apply (downloadAssets_requests_every_reference
           scenario.two_of_three_world scenario.three_images scenario.repo "master");
    reflexivity.
Defined.

(** X6.  The files [downloadAssets] creates or writes are mirrored paths of
    extracted references, the directories it creates are the destination
    root and directories of extracted references under it, and the URLs it
    requests are those of extracted references; it prints nothing with
    [Println], changes no directory and runs no command. *)
Theorem downloadAssets_touches_only_its_references
        (w : World) (readme : goquery.Document) (u : url.URL) (b content : string)
        (st : State) (evs : list Event) (e : Event) :
  goquery_Html w readme = ok content ->
  trace (snd (downloadAssets w readme u b st)) = trace st ++ evs ->
  In e evs ->
  e = EvMkdirAll (filepath_Join w ["."; filepath_Base w (url.Path u)])
  \/ download_event w u b (filepath_Join w ["."; filepath_Base w (url.Path u)])
       (structural_assets readme ++ inline_assets content) e.
Proof.
  intros Hhtml Ht Hin.
  destruct (only_downloadAssets w readme u b content Hhtml st) as (evs' & Ht' & Hevs).
  rewrite Ht' in Ht. apply app_inv_head in Ht. subst evs'.
  rewrite Forall_forall in Hevs. now apply Hevs.
Qed.

Lemma downloadAssets_touches_only_its_references_witness :
  EvCreate "r/img/c.png"
  = EvMkdirAll (filepath_Join scenario.two_of_three_world
                  ["."; filepath_Base scenario.two_of_three_world
                          (url.Path scenario.repo)])
  \/ download_event scenario.two_of_three_world scenario.repo "master"
       (filepath_Join scenario.two_of_three_world
          ["."; filepath_Base scenario.two_of_three_world (url.Path scenario.repo)])
       (structural_assets scenario.three_images
        ++ inline_assets
             (String.concat EmptyString (map scenario.render scenario.three_images)))
       (EvCreate "r/img/c.png").
Proof.
  eapply (downloadAssets_touches_only_its_references
            scenario.two_of_three_world scenario.three_images scenario.repo "master"
            _ initial _ (EvCreate "r/img/c.png")).
  - reflexivity.
  - cbn [initial trace app]. reflexivity.
  - vm_compute. auto 20.
Defined.

(* ===================================================================== *)
(** * Further properties: the pattern search *)
(* ===================================================================== *)

(** What follows a sub-expression is tried on a suffix of the text. *)
Lemma run_suffix {R : Type} (r : regexp.Regexp) :
  forall (s : string) (g : regexp.groups)
         (cont : string -> regexp.groups -> option R) (x : R),
    regexp.run r s g cont = Some x ->
    exists m rest g', s = (m ++ rest)%string /\ cont rest g' = Some x.
Proof.
  induction r as [|k|k|r1 IH1 r2 IH2|r1 IH1 r2 IH2|i r1 IH1];
    intros s g cont x H; cbn [regexp.run] in H.
  - exists EmptyString, s, g. auto.
  - destruct s as [|b s]; [discriminate|].
    destruct (regexp.accepts k b); [|discriminate].
    exists (String b EmptyString), s, g. auto.
  - apply star_sound in H as (m & rest & -> & _ & H). eauto.
  - apply IH1 in H as (m1 & rest1 & g1 & -> & H).
    apply IH2 in H as (m2 & rest & g2 & -> & H).
    exists (m1 ++ m2)%string, rest, g2. now rewrite string_app_assoc.
  - apply or_else_Some in H as [H | H]; [apply IH1 in H | apply IH2 in H]; exact H.
  - apply IH1 in H as (m & rest & g' & -> & H). eauto.
Qed.

Lemma match_here_suffix (r : regexp.Regexp) (s rest : string) (g : regexp.groups) :
  regexp.match_here r s = Some (rest, g) -> exists m, s = (m ++ rest)%string.
Proof.
  intros H. apply run_suffix in H as (m & rest' & g' & -> & H).
  injection H as -> _. eauto.
Qed.

(** Every match the search reports is a match of the pattern at the start
    of a suffix of the text. *)
Lemma scan_Matched_suffix (r : regexp.Regexp) (m : list string) (n : nat) (s : string) :
  String.length s <= n ->
  In (regexp.Matched m) (regexp.scan r s) ->
  exists a t rest g,
    s = (a ++ t)%string
    /\ regexp.match_here r t = Some (rest, g) /\ m = regexp.submatch r t rest g.
Proof.
  revert s m. induction n as [|n IH]; intros s m Hn Hin.
  - destruct s; [|simpl in Hn; lia].
    rewrite scan_nil in Hin.
    destruct (regexp.match_here r EmptyString) as [[rest g]|] eqn:E; [|contradiction].
    destruct Hin as [Hin | []]. injection Hin as <-.
    exists EmptyString, EmptyString, rest, g. auto.
  - destruct s as [|b s].
    { rewrite scan_nil in Hin.
      destruct (regexp.match_here r EmptyString) as [[rest g]|] eqn:E; [|contradiction].
      destruct Hin as [Hin | []]. injection Hin as <-.
      exists EmptyString, EmptyString, rest, g. auto. }
    rewrite scan_cons in Hin. simpl in Hn.
    assert (Hs : forall m',
               In (regexp.Matched m') (regexp.scan r s) ->
               exists a t rest g,
                 String b s = (a ++ t)%string
                 /\ regexp.match_here r t = Some (rest, g)
                 /\ m' = regexp.submatch r t rest g).
    { intros m' H. apply (IH s) in H as (a & t & rest & g & -> & H); [|lia].
      exists (String b a), t, rest, g. auto. }
    destruct (regexp.match_here r (String b s)) as [[rest g]|] eqn:E.
    + destruct (Nat.ltb (String.length rest) (S (String.length s))) eqn:Hlt.
      * destruct Hin as [Hin | Hin].
        { injection Hin as <-. exists EmptyString, (String b s), rest, g. auto. }
        apply Nat.ltb_lt in Hlt.
        apply (IH rest) in Hin as (a & t & rest' & g' & -> & H); [|lia].
        apply match_here_suffix in E as (m0 & E).
        exists (m0 ++ a)%string, t, rest', g'. rewrite string_app_assoc. auto.
      * destruct Hin as [Hin | [Hin | Hin]]; [|discriminate | now apply Hs].
        injection Hin as <-. exists EmptyString, (String b s), rest, g. auto.
    + destruct Hin as [Hin | Hin]; [discriminate | now apply Hs].
Qed.

(** What the inline pass extracts, and where from. *)
Lemma inline_assets_sound (content path : string) :
  In path (inline_assets content) ->
  exists before label after c mid ext,
    strip_raw_suffix content
    = (before ++ "[" ++ label ++ "](" ++ path ++ ")" ++ after)%string
    /\ path = String c (mid ++ "." ++ ext)
    /\ In ext ["png"; "jpg"; "gif"; "svg"]
    /\ regexp.mem c excluded_first_bytes = false
    /\ strings.Contains label nl = false
    /\ strings.Contains mid nl = false.
Proof.
  intros Hin. unfold inline_assets in Hin.
  apply in_flat_map in Hin as (m & Hm & Hpath).
  unfold regexp.FindAllStringSubmatch in Hm.
  apply in_flat_map in Hm as (piece & Hpiece & Hm).
  destruct piece as [b | m']; [contradiction|].
  destruct Hm as [-> | []].
  apply (scan_Matched_suffix _ _ (String.length (strip_raw_suffix content))) in Hpiece;
    [|lia].
  destruct Hpiece as (before & t & rest & g & Hs & Hmatch & ->).
  apply regex_sound in Hmatch as (label & c & mid & ext & -> & Hgroup & Hc & Hext & Hl & Hmid).
  change (regexp.submatch regex _ rest g)
    with [regexp.consumed
            ("[" ++ label ++ "](" ++ String c (mid ++ "." ++ ext) ++ ")" ++ rest) rest;
          regexp.group g 1; regexp.group g 2; regexp.group g 3]
    in Hpath.
  cbn [List.length nth Nat.ltb Nat.leb orb] in Hpath.
  rewrite Hgroup in Hpath. cbn [String.eqb] in Hpath.
  destruct Hpath as [<- | []].
  exists before, label, rest, c, mid, ext. repeat split; assumption.
Qed.

(** X7.  Every path the inline pass extracts stands in the stripped text
    between ["]("] and [")"], behind a label in brackets on the same line;
    it ends in a dot and one of the extensions png, jpg, gif and svg, has
    no newline after its first byte, and its first byte is none of h, t, p,
    s, ?, : and /. *)
Theorem inline_assets_are_links_to_images (content path : string) :
  In path (inline_assets content) ->
  exists before label after c mid ext,
    strip_raw_suffix content
    = (before ++ "[" ++ label ++ "](" ++ path ++ ")" ++ after)%string
    /\ path = String c (mid ++ "." ++ ext)
    /\ In ext ["png"; "jpg"; "gif"; "svg"]
    /\ regexp.mem c excluded_first_bytes = false
    /\ strings.Contains label nl = false
    /\ strings.Contains mid nl = false.
Proof. apply inline_assets_sound. Qed.

Lemma inline_assets_are_links_to_images_witness :
  exists before label after c mid ext,
    strip_raw_suffix "see ![shot](doc/shot.png?raw=true) here"
    = (before ++ "[" ++ label ++ "](" ++ "doc/shot.png" ++ ")" ++ after)%string
    /\ "doc/shot.png" = String c (mid ++ "." ++ ext)
    /\ In ext ["png"; "jpg"; "gif"; "svg"]
    /\ regexp.mem c excluded_first_bytes = false
    /\ strings.Contains label nl = false
    /\ strings.Contains mid nl = false.
Proof.
  apply (inline_assets_are_links_to_images
           "see ![shot](doc/shot.png?raw=true) here" "doc/shot.png").
  vm_compute. auto.
Defined.

(** The pieces of the search, put end to end, are the text. *)
Lemma scan_partition (r : regexp.Regexp) (n : nat) (s : string) :
  String.length s <= n ->
  fold_right (fun p out => (piece_text p ++ out)%string) EmptyString (regexp.scan r s)
  = s.
Proof.
  revert s. induction n as [|n IH]; intros s Hn.
  - destruct s; [|simpl in Hn; lia].
    rewrite scan_nil. destruct (regexp.match_here r EmptyString) as [[rest g]|];
      [|reflexivity].
    cbn. unfold regexp.consumed. cbn. reflexivity.
  - destruct s as [|b s].
    { rewrite scan_nil. destruct (regexp.match_here r EmptyString) as [[rest g]|];
        [|reflexivity].
      cbn. unfold regexp.consumed. cbn. reflexivity. }
    rewrite scan_cons. simpl in Hn.
    destruct (regexp.match_here r (String b s)) as [[rest g]|] eqn:E.
    + apply match_here_suffix in E as (m & E).
      destruct (Nat.ltb (String.length rest) (S (String.length s))) eqn:Hlt;
        cbn [fold_right piece_text regexp.submatch hd].
      * apply Nat.ltb_lt in Hlt. rewrite (IH rest) by lia.
        rewrite E. now rewrite consumed_app.
      * apply Nat.ltb_ge in Hlt. rewrite (IH s) by lia.
        assert (m = EmptyString) as ->.
        { apply (f_equal String.length) in E. rewrite string_length_app in E.
          simpl in E. destruct m; [reflexivity | simpl in E; lia]. }
        rewrite E at 1. rewrite (consumed_app EmptyString rest). reflexivity.
    + cbn [fold_right piece_text]. rewrite (IH s) by lia. reflexivity.
Qed.

Lemma count_app (c : ascii) (a b : string) :
  count c (a ++ b) = count c a + count c b.
Proof. induction a as [|x a IH]; simpl; [reflexivity | rewrite IH; lia]. Qed.

Lemma count_absent (c : ascii) (s : string) :
  strings.Contains s (String c EmptyString) = false -> count c s = 0.
Proof.
  induction s as [|b s IH]; [reflexivity|].
  cbn [strings.Contains count]. rewrite HasPrefix_cons. intros H.
  apply orb_false_iff in H as [Hb Hs]. rewrite (IH Hs).
  rewrite Ascii.eqb_sym. destruct (Ascii.eqb c b); [discriminate | reflexivity].
Qed.

(** ** A measure of texts that adds up over concatenation *)

Section Measure.
Variable f : string -> nat.
Hypothesis f_app : forall a b, f (a ++ b) = f a + f b.
Variable Rel : nat -> nat -> Prop.
Hypothesis Rel_refl : forall n, Rel n n.
Hypothesis Rel_plus : forall a b c d, Rel a b -> Rel c d -> Rel (a + c) (b + d).

Lemma f_cons (b : ascii) (s : string) : f (String b s) = f (String b EmptyString) + f s.
Proof. apply (f_app (String b EmptyString) s). Qed.

(** [strings.ReplaceAll] with a [new] that measures as [old] does, or less. *)
Lemma ReplaceAll_measure (old new : string) (n : nat) (s : string) :
  old <> EmptyString -> Rel (f new) (f old) -> String.length s <= n ->
  Rel (f (strings.ReplaceAll s old new)) (f s).
Proof.
  intros Hold Hrel. revert s. induction n as [|n IH]; intros s Hn.
  - destruct s; [|simpl in Hn; lia]. rewrite ReplaceAll_nil by assumption. apply Rel_refl.
  - destruct s as [|c s]; [rewrite ReplaceAll_nil by assumption; apply Rel_refl|].
    rewrite ReplaceAll_cons by assumption. simpl in Hn.
    destruct (strings.CutPrefix (String c s) old) as [rest|] eqn:E.
    + pose proof (CutPrefix_length _ _ _ E) as Hlen.
      apply CutPrefix_app in E. rewrite E, !f_app.
      apply Rel_plus; [assumption|]. apply IH.
      destruct old; [contradiction|]. simpl in Hlen. lia.
    + rewrite (f_cons c s), (f_cons c (strings.ReplaceAll s old new)).
      apply Rel_plus; [apply Rel_refl|]. apply IH. lia.
Qed.

(** [ReplaceAllString] with a replacement that measures as every match
    does, or less. *)
Lemma ReplaceAllString_measure (r : regexp.Regexp) (s repl : string) :
  (forall t rest g,
      regexp.match_here r t = Some (rest, g) ->
      Rel (f repl) (f (regexp.consumed t rest))) ->
  Rel (f (regexp.ReplaceAllString r s repl)) (f s).
Proof.
  intros Hmatch.
  rewrite <- (scan_partition r (String.length s) s) at 2 by lia.
  unfold regexp.ReplaceAllString.
  assert (Hall : forall m, In (regexp.Matched m) (regexp.scan r s) ->
                           Rel (f repl) (f (hd EmptyString m))).
  { intros m Hm. apply (scan_Matched _ _ (String.length s)) in Hm; [|lia].
    destruct Hm as (t & rest & g & Ht & ->). cbn. now apply (Hmatch t rest g). }
  induction (regexp.scan r s) as [|p l IH]; [apply Rel_refl|].
  cbn [fold_right]. destruct p as [b | m]; cbn [piece_text].
  - rewrite f_cons, f_app. apply Rel_plus; [apply Rel_refl|].
    apply IH. intros m Hm. apply Hall. now right.
  - rewrite !f_app. apply Rel_plus; [apply Hall; now left|].
    apply IH. intros m' Hm. apply Hall. now right.
Qed.
End Measure.

(** The text a match of the heading-anchor pattern consumes. *)
Lemma aRemoverRegex_consumed (t rest : string) (g : regexp.groups) :
  regexp.match_here aRemoverRegex t = Some (rest, g) ->
  exists attrs,
    regexp.consumed t rest = ("## <a " ++ attrs ++ "></a>")%string
    /\ strings.Contains attrs nl = false.
Proof.
  intros H. apply aRemoverRegex_sound in H as (attrs & -> & Hattrs).
  exists attrs. split; [|assumption].
  replace ("## <a " ++ attrs ++ "></a>" ++ rest)%string
    with (("## <a " ++ attrs ++ "></a>") ++ rest)%string
    by (now rewrite !string_app_assoc).
  apply consumed_app.
Qed.

(** X8.  The text written to README.md is never longer than the text
    fetched, and it has the same number of newlines: canonicalization
    deletes bytes inside lines and neither joins nor splits lines. *)
Theorem canonical_text_keeps_lines (raw : string) :
  String.length (canonical_text raw) <= String.length raw
  /\ count regexp.newline (canonical_text raw) = count regexp.newline raw.
Proof.
  unfold canonical_text, remove_heading_anchors, strip_raw_suffix. split.
  - transitivity (String.length (strings.ReplaceAll raw raw_marker_paren ")")).
    + apply (ReplaceAllString_measure String.length string_length_app le);
        [intros; lia | intros; lia |].
      intros t rest g H. apply aRemoverRegex_consumed in H as (attrs & -> & _).
      rewrite !string_length_app. cbn. lia.
    + apply (ReplaceAll_measure String.length string_length_app le)
        with (n := String.length raw);
        [intros; lia | intros; lia | discriminate | cbn; lia | lia].
  - transitivity (count regexp.newline (strings.ReplaceAll raw raw_marker_paren ")")).
    + apply (ReplaceAllString_measure (count regexp.newline) (count_app _) eq);
        [reflexivity | intros; lia |].
      intros t rest g H. apply aRemoverRegex_consumed in H as (attrs & -> & Hattrs).
      rewrite !count_app, (count_absent _ _ Hattrs). reflexivity.
    + apply (ReplaceAll_measure (count regexp.newline) (count_app _) eq)
        with (n := String.length raw);
        [reflexivity | intros; lia | discriminate | reflexivity | lia].
Qed.

(** X9.  A README that contains neither ["?raw=true)"] nor ["## <a "] is
    written byte for byte as it was fetched. *)
Theorem canonical_text_of_plain_text (raw : string) :
  strings.Contains raw "?raw=true)" = false ->
  strings.Contains raw "## <a " = false ->
  canonical_text raw = raw.
Proof.
  intros Hmarker Hanchor. unfold canonical_text, strip_raw_suffix, raw_marker_paren.
  rewrite (ReplaceAll_absent _ _ _ Hmarker).
  apply ReplaceAllString_no_match.
  destruct (regexp.MatchString aRemoverRegex raw) eqn:E; [|reflexivity].
  apply aRemoverRegex_MatchString in E as (a & attrs & b & -> & _).
  assert (H : strings.Contains (a ++ "## <a " ++ attrs ++ "></a>" ++ b) "## <a " = true)
    by (apply Contains_iff; eauto).
  congruence.
Qed.

Lemma canonical_text_of_plain_text_witness :
  canonical_text "# Title" = "# Title".
Proof.
  apply (canonical_text_of_plain_text "# Title"); reflexivity.
Defined.

(* ===================================================================== *)
(** * Further properties: how a run ends *)
(* ===================================================================== *)

Lemma never_exits_bind {A B : Type} (m : M A) (k : A -> M B) :
  never_exits m -> (forall a, never_exits (k a)) -> never_exits (bind m k).
Proof.
  intros Hm Hk st code. unfold bind. specialize (Hm st).
  destruct (m st) as [[a|c|e] st1]; cbn [fst] in *.
  - apply Hk.
  - exfalso. now apply (Hm c).
  - discriminate.
Qed.

Lemma never_exits_getReadme (w : World) (u : url.URL) (b : string) :
  never_exits (getReadme w u b).
Proof.
  intros st code. unfold getReadme, bind. rewrite fetch_readme_run.
  destruct (net_Get w (trace st) (readme_url u b)) as [resp|e]; [|discriminate].
  destruct (negb (Z.eqb (StatusCode resp) StatusOK)); [discriminate|].
  destruct (BodyErr resp); [discriminate|].
  unfold parse_and_persist. unfold_calls.
  destruct (goquery_NewDocumentFromReader w (Body resp)); [|discriminate].
  destruct (fs_Create w _ _); [discriminate|]. cbn [trace opened].
  destruct (fs_Write w _ _ _) as [[n e]|]; discriminate.
Qed.

Lemma never_exits_downloadAssets
      (w : World) (readme : goquery.Document) (u : url.URL) (b : string) :
  never_exits (downloadAssets w readme u b).
Proof.
  intros st code. unfold downloadAssets.
  destruct (goquery_Html w readme) as [content|e]; [|discriminate].
  destruct (Nat.eqb _ 0); [discriminate|].
  unfold bind at 1. unfold os_MkdirAll.
  destruct (fs_MkdirAll w (trace st) _); [discriminate|].
  unfold bind.
  destruct (download_loop_returns w u b
              (filepath_Join w ["."; filepath_Base w (url.Path u)])
              (structural_assets readme ++ inline_assets content) []
              {| trace := trace st ++
                   [EvMkdirAll (filepath_Join w ["."; filepath_Base w (url.Path u)])];
                 opened := opened st |})
    as (hs & evs & -> & _).
  destruct (run_deferred_returns (hs ++ [])
              {| trace := (trace st ++
                   [EvMkdirAll (filepath_Join w ["."; filepath_Base w (url.Path u)])])
                   ++ evs;
                 opened := hs ++ opened st |}) as (st3 & E & _).
  cbn [trace opened] in *. rewrite E. discriminate.
Qed.

Lemma never_exits_mirror (w : World) (repoLink : string) (u : url.URL) (b : string) :
  never_exits (mirror w repoLink u b).
Proof.
  unfold mirror.
  apply never_exits_bind; [intros st code; discriminate|]. intros _.
  apply never_exits_bind; [apply never_exits_getReadme|].
  intros [readme|e]; [|intros st code; discriminate].
  apply never_exits_bind; [apply never_exits_downloadAssets|].
  intros [e|]; [intros st code; discriminate|].
  apply never_exits_bind; [intros st code; discriminate|]. intros _.
  intros st code. unfold_calls.
  destruct (fs_Create w (trace st) "expand.sh"); [discriminate|]. cbn [trace opened].
  destruct (fs_Write w _ _ _) as [[n e]|]; [discriminate|]. cbn [trace opened].
  destruct (exec_Run w _ _ _); discriminate.
Qed.

(** X10.  A run exits by [os.Exit] only with status 1, and only for one of
    two reasons: the number of arguments is not one, or the host of the URL
    does not begin with ["github.com"].  All it has done then is to print
    the usage line, or the diagnostic. *)
Theorem main_exits_only_on_bad_input
        (w : World) (Args : list string) (st : State) (code : Z) :
  fst (main w Args st) = Exit code ->
  code = 1%Z
  /\ ((List.length Args <> 2
       /\ snd (main w Args st)
          = {| trace := trace st ++ [EvPrintln usage]; opened := opened st |})
      \/ (exists u,
             url_Parse w (nth 1 Args EmptyString) = ok u
             /\ strings.HasPrefix (url.Host u) "github.com" = false
             /\ snd (main w Args st)
                = {| trace := trace st ++ [EvPrintln not_github];
                     opened := opened st |})).
Proof.
  unfold main. destruct (Nat.eqb (List.length Args) 2) eqn:Hlen; cbn [negb].
  - apply Nat.eqb_eq in Hlen. rewrite Hlen. cbn [Nat.eqb].
    destruct (url_Parse w (nth 1 Args EmptyString)) as [u|e]; [|discriminate].
    destruct (strings.HasPrefix (url.Host u) "github.com") eqn:Hhost; cbn [negb].
    + intros H. exfalso. revert H. apply never_exits_mirror.
    + cbn. intros H. injection H as <-. split; [reflexivity|]. right. eauto.
  - apply Nat.eqb_neq in Hlen. cbn. intros H. injection H as <-.
    split; [reflexivity|]. left. auto.
Qed.

Lemma main_exits_only_on_bad_input_witness :
  1%Z = 1%Z
  /\ ((List.length ["readtheirs"] <> 2
       /\ snd (main scenario.img_world ["readtheirs"] initial)
          = {| trace := trace initial ++ [EvPrintln usage]; opened := opened initial |})
      \/ (exists u,
             url_Parse scenario.img_world (nth 1 ["readtheirs"] EmptyString) = ok u
             /\ strings.HasPrefix (url.Host u) "github.com" = false
             /\ snd (main scenario.img_world ["readtheirs"] initial)
                = {| trace := trace initial ++ [EvPrintln not_github];
                     opened := opened initial |})).
Proof.
  apply (main_exits_only_on_bad_input scenario.img_world ["readtheirs"] initial 1).
  reflexivity.
Defined.

(** When [getReadme] succeeds, the response had status 200 and the
    canonical text of its body is written to README.md, in full. *)
Lemma getReadme_ok_written
      (w : World) (u : url.URL) (b : string) (st st' : State)
      (doc : goquery.Document) :
  getReadme w u b st = (Return (ok doc), st') ->
  exists resp,
    net_Get w (trace st) (readme_url u b) = ok resp
    /\ StatusCode resp = 200%Z
    /\ BodyErr resp = None
    /\ In (EvWrite (filepath_Join w ["."; filepath_Base w (url.Path u); "README.md"])
                   (canonical_text (Body resp)))
          (trace st').
Proof.
  unfold getReadme, bind. rewrite fetch_readme_run.
  destruct (net_Get w (trace st) (readme_url u b)) as [resp|e]; [|discriminate].
  destruct (Z.eqb_spec (StatusCode resp) StatusOK) as [Hs|Hs]; cbn [negb];
    [|discriminate].
  destruct (BodyErr resp) eqn:Hb; [discriminate|].
  unfold parse_and_persist. unfold_calls.
  destruct (goquery_NewDocumentFromReader w (Body resp)); [|discriminate].
  destruct (fs_Create w _ _); [discriminate|]. cbn [trace opened].
  destruct (fs_Write w _ _ _) as [[n e]|]; [discriminate|].
  intros H. injection H as _ <-. exists resp. repeat split; try assumption.
  cbn [trace]. apply in_or_app. left. apply in_or_app. right. now left.
Qed.

Lemma downloadAssets_grows
      (w : World) (readme : goquery.Document) (u : url.URL) (b : string) (st : State) :
  exists evs, trace (snd (downloadAssets w readme u b st)) = trace st ++ evs.
Proof.
  destruct (goquery_Html w readme) as [content|e] eqn:Hhtml.
  - destruct (only_downloadAssets w readme u b content Hhtml st) as (evs & Ht & _).
    eauto.
  - unfold downloadAssets. rewrite Hhtml. exists []. cbn. now rewrite app_nil_r.
Qed.

(** X11.  A run that ends with status 0 was given one URL whose host begins
    with ["github.com"], got the README with status 200, and has written
    the canonical text of the fetched README to README.md in full, written
    the whole script to expand.sh, and run chmod +x on it. *)
Theorem main_success_means_mirrored (w : World) (Args : list string) :
  fst (main w Args initial) = Return tt ->
  exists u resp,
    List.length Args = 2
    /\ url_Parse w (nth 1 Args EmptyString) = ok u
    /\ strings.HasPrefix (url.Host u) "github.com" = true
    /\ net_Get w [EvMkdirAll (filepath_Join w ["."; filepath_Base w (url.Path u)])]
               (readme_url u "master") = ok resp
    /\ StatusCode resp = 200%Z
    /\ In (EvWrite (filepath_Join w ["."; filepath_Base w (url.Path u); "README.md"])
                   (canonical_text (Body resp)))
          (trace (snd (main w Args initial)))
    /\ In (EvWrite "expand.sh" (expand_sh (nth 1 Args EmptyString)))
          (trace (snd (main w Args initial)))
    /\ In (EvRun "chmod" ["+x"; "expand.sh"]) (trace (snd (main w Args initial))).
Proof.
  destruct (main w Args initial) as [o st'] eqn:E. cbn [fst snd]. intros ->.
  revert E. unfold main.
  destruct (Nat.eqb (List.length Args) 2) eqn:Hlen; cbn [negb]; [|discriminate].
  apply Nat.eqb_eq in Hlen. rewrite Hlen. cbn [Nat.eqb].
  destruct (url_Parse w (nth 1 Args EmptyString)) as [u|e]; [|discriminate].
  destruct (strings.HasPrefix (url.Host u) "github.com") eqn:Hhost; cbn [negb];
    [|discriminate].
  unfold mirror. unfold bind at 1. unfold os_MkdirAll at 1.
  cbn [trace opened initial app]. unfold bind at 1.
  destruct (getReadme w u "master" _) as [[[readme|e]| |] st2] eqn:Hg; try discriminate.
  apply getReadme_ok_written in Hg as (resp & Hget & Hs & _ & Hreadme).
  cbn [trace] in Hget. unfold bind at 1.
  destruct (downloadAssets_grows w readme u "master" st2) as (evs & Hgrow).
  destruct (downloadAssets w readme u "master" st2) as [[[e|]| |] st3]; try discriminate.
  cbn [snd] in Hgrow. unfold_calls.
  destruct (fs_Create w _ "expand.sh"); [discriminate|]. cbn [trace opened].
  destruct (fs_Write w _ _ _) as [[n e]|]; [discriminate|]. cbn [trace opened].
  destruct (exec_Run w _ _ _); [discriminate|]. cbn [trace opened].
  intros E. injection E as <-. exists u, resp. cbn [trace].
  repeat split; try assumption.
  - rewrite Hgrow. repeat (apply in_or_app; left). assumption.
  - apply in_or_app; left. apply in_or_app; left. apply in_or_app; right. now left.
  - apply in_or_app; left. apply in_or_app; right. now left.
Qed.

Lemma main_success_means_mirrored_witness :
  exists u resp,
    List.length ["readtheirs"; "https://github.com/u/r"] = 2
    /\ url_Parse scenario.three_images_world
                 (nth 1 ["readtheirs"; "https://github.com/u/r"] EmptyString) = ok u
    /\ strings.HasPrefix (url.Host u) "github.com" = true
    /\ net_Get scenario.three_images_world
               [EvMkdirAll (filepath_Join scenario.three_images_world
                              ["."; filepath_Base scenario.three_images_world
                                      (url.Path u)])]
               (readme_url u "master") = ok resp
    /\ StatusCode resp = 200%Z
    /\ In (EvWrite (filepath_Join scenario.three_images_world
                      ["."; filepath_Base scenario.three_images_world (url.Path u);
                       "README.md"])
                   (canonical_text (Body resp)))
          (trace (snd (main scenario.three_images_world
                         ["readtheirs"; "https://github.com/u/r"] initial)))
    /\ In (EvWrite "expand.sh"
                   (expand_sh (nth 1 ["readtheirs"; "https://github.com/u/r"]
                                   EmptyString)))
          (trace (snd (main scenario.three_images_world
                         ["readtheirs"; "https://github.com/u/r"] initial)))
    /\ In (EvRun "chmod" ["+x"; "expand.sh"])
          (trace (snd (main scenario.three_images_world
                         ["readtheirs"; "https://github.com/u/r"] initial))).
Proof.
  apply (main_success_means_mirrored scenario.three_images_world
           ["readtheirs"; "https://github.com/u/r"]).
  reflexivity.
Defined.

(* ===================================================================== *)
(** * Further properties: the references *)
(* ===================================================================== *)

Lemma nil_of_no_member {A : Type} (l : list A) : (forall x, ~ In x l) -> l = [].
Proof. destruct l as [|a l]; [reflexivity|]. intros H. exfalso. apply (H a). now left. Qed.

(** X12.  For a document whose selected elements have only sources and
    targets beginning with ["http"], and whose rendered text, once stripped,
    contains no ["]("], [downloadAssets] returns nil and does nothing: no
    request, no directory, no file. *)
Theorem downloadAssets_without_local_reference
        (w : World) (readme : goquery.Document) (u : url.URL) (b content : string)
        (st : State) :
  goquery_Html w readme = ok content ->
  (forall attr name v,
      In attr (goquery.Find readme) -> name = "src" \/ name = "href" ->
      goquery.Attr attr name = Some v -> strings.HasPrefix v "http" = true) ->
  strings.Contains (strip_raw_suffix content) "](" = false ->
  downloadAssets w readme u b st = (Return None, st).
Proof.
  intros Hhtml Hremote Hplain. unfold downloadAssets. rewrite Hhtml.
  assert (Hs : structural_assets readme = []).
  { apply nil_of_no_member. intros v Hv. unfold structural_assets in Hv.
    apply in_flat_map in Hv as (attr & Hattr & Hv).
    apply in_app_or in Hv as [Hv | Hv]; apply local_attr_In in Hv as [Hv Hp].
    - rewrite (Hremote attr "src" v Hattr (or_introl eq_refl) Hv) in Hp. discriminate.
    - rewrite (Hremote attr "href" v Hattr (or_intror eq_refl) Hv) in Hp. discriminate. }
  assert (Hi : inline_assets content = []).
  { apply nil_of_no_member. intros path Hpath.
    apply inline_assets_sound in Hpath
      as (before & label & after & c & mid & ext & Hs' & _).
    assert (H : strings.Contains (strip_raw_suffix content) "](" = true).
    { apply Contains_iff. exists (before ++ "[" ++ label)%string, (path ++ ")" ++ after)%string.
      rewrite Hs', !string_app_assoc. reflexivity. }
    congruence. }
  rewrite Hs, Hi. reflexivity.
Qed.

Lemma downloadAssets_without_local_reference_witness :
  downloadAssets scenario.two_of_three_world
                 (fixture.page [scenario.img "https://x/y.png"])
                 scenario.repo "master" initial
  = (Return None, initial).
Proof.
  eapply (downloadAssets_without_local_reference
            scenario.two_of_three_world (fixture.page [scenario.img "https://x/y.png"])
            scenario.repo "master" _ initial).
  - reflexivity.
  - intros attr name v Hattr Hname Hv. cbn in Hattr.
    destruct Hattr as [<- | []].
    destruct Hname as [-> | ->]; cbn in Hv; [|discriminate].
    injection Hv as <-. reflexivity.
  - reflexivity.
Defined.

(** X13.  The references the structural pass collects from the document
    [getReadme] returns are the stripped values: a value is collected
    exactly when it is the [src] or [href] of a selected element of the
    parsed document with every ["?raw=true"] removed, and what is left does
    not begin with ["http"]. *)
Theorem structural_assets_of_stripped_document
        (parsed : goquery.Document) (v : string) :
  In v (structural_assets (goquery.Each strip_element parsed)) <->
  exists attr name v0,
    In attr (goquery.Find parsed)
    /\ (name = "src" \/ name = "href")
    /\ goquery.Attr attr name = Some v0
    /\ v = strip_attr_value v0
    /\ strings.HasPrefix v "http" = false.
Proof.
  unfold structural_assets. rewrite Find_Each_strip_element, in_flat_map. split.
  - intros (attr' & Hattr' & Hv). apply in_map_iff in Hattr' as (attr & <- & Hattr).
    apply in_app_or in Hv as [Hv | Hv];
      apply local_attr_In in Hv as [Hv Hp];
      rewrite Attr_strip_element in Hv; cbn [String.eqb Ascii.eqb Bool.eqb orb] in Hv;
      destruct (goquery.Attr attr _) as [v0|] eqn:E; try discriminate;
      injection Hv as <-; exists attr; eauto 10.
  - intros (attr & name & v0 & Hattr & Hname & Hv0 & -> & Hp).
    exists (strip_element attr). split; [now apply in_map|].
    apply in_or_app.
    destruct Hname as [-> | ->]; [left | right];
      apply local_attr_In; (split; [|assumption]);
      rewrite Attr_strip_element, Hv0; reflexivity.
Qed.

Lemma SetAttr_names (attr : list goquery.Attribute) (name v v' : string) :
  goquery.Attr attr name = Some v ->
  map fst (goquery.SetAttr attr name v') = map fst attr.
Proof.
  induction attr as [|[k x] attr IH]; cbn; [discriminate|].
  destruct (String.eqb k name); cbn; [reflexivity|].
  intros H. now rewrite IH.
Qed.

Lemma strip_attr_names (attr : list goquery.Attribute) (name : string) :
  map fst (strip_attr attr name) = map fst attr.
Proof.
  unfold strip_attr. destruct (goquery.Attr attr name) as [v|] eqn:E; [|reflexivity].
  destruct (strings.Contains v raw_marker); [|reflexivity].
  now apply (SetAttr_names attr name v).
Qed.

(** X14.  The callback of [getReadme] adds and removes no attribute and
    keeps their order; it leaves every attribute other than [src] and
    [href] as it is, and a [src] or [href] never gets longer. *)
Theorem strip_element_keeps_attributes (attr : list goquery.Attribute) :
  map fst (strip_element attr) = map fst attr
  /\ (forall name,
         String.eqb name "src" || String.eqb name "href" = false ->
         goquery.Attr (strip_element attr) name = goquery.Attr attr name)
  /\ (forall name v,
         goquery.Attr (strip_element attr) name = Some v ->
         exists v0, goquery.Attr attr name = Some v0
                    /\ String.length v <= String.length v0).
Proof.
  split; [|split].
  - unfold strip_element. now rewrite !strip_attr_names.
  - intros name H. now rewrite Attr_strip_element, H.
  - intros name v. rewrite Attr_strip_element.
    destruct (String.eqb name "src" || String.eqb name "href").
    + destruct (goquery.Attr attr name) as [v0|]; [|discriminate].
      cbn. intros H. injection H as <-. exists v0. split; [reflexivity|].
      unfold strip_attr_value.
      apply (ReplaceAll_measure String.length string_length_app le)
        with (n := String.length v0);
        [intros; lia | intros; lia | discriminate | cbn; lia | lia].
    + intros H. exists v. auto.
Qed.

Lemma strip_element_keeps_attributes_witness :
  goquery.Attr (strip_element [("alt", "logo"); ("src", "a.png?raw=true")]) "alt"
  = goquery.Attr [("alt", "logo"); ("src", "a.png?raw=true")] "alt"
  /\ exists v0,
       goquery.Attr [("alt", "logo"); ("src", "a.png?raw=true")] "src" = Some v0
       /\ String.length "a.png" <= String.length v0.
Proof.
  destruct (strip_element_keeps_attributes [("alt", "logo"); ("src", "a.png?raw=true")])
    as (_ & Hother & Hshorter).
  split.
  - apply Hother. reflexivity.
  - apply (Hshorter "src" "a.png"). reflexivity.
Defined.

(* ===================================================================== *)
(** * Further properties: the failures of the Document Fetcher *)
(* ===================================================================== *)

(** X15.  When the document cannot be fetched (transport error, status
    other than 200, or failed reading of the body), [getReadme] returns the
    error of the fetch and has touched no file: after its request it creates
    and writes nothing. *)
Theorem getReadme_fetch_failure_touches_no_file
        (w : World) (u : url.URL) (b : string) (st : State) (e : error) :
  fst (fetch_readme w u b st) = Return (err e) ->
  fst (getReadme w u b st) = Return (err e)
  /\ exists evs,
       trace (snd (getReadme w u b st)) = trace st ++ EvGet (readme_url u b) :: evs
       /\ creates evs = [] /\ writes evs = [] /\ requests evs = [].
Proof.
  unfold getReadme, bind. rewrite fetch_readme_run.
  destruct (net_Get w (trace st) (readme_url u b)) as [resp|e0]; cbn [fst].
  - destruct (negb (Z.eqb (StatusCode resp) StatusOK)).
    + intros H. injection H as <-. split; [reflexivity|].
      eexists. unfold after_fetch. cbn [snd trace]. split; [reflexivity|]. auto.
    + destruct (BodyErr resp) as [e1|]; [|discriminate].
      intros H. injection H as <-. split; [reflexivity|].
      eexists. unfold after_fetch. cbn [snd trace]. split; [reflexivity|]. auto.
  - intros H. injection H as <-. split; [reflexivity|].
    exists []. cbn. auto.
Qed.

Lemma getReadme_fetch_failure_touches_no_file_witness :
  fst (getReadme scenario.no_content_world scenario.repo "master" initial)
  = Return (err (Errorf "failed to retrieve the README.md file, status code: %d"
                        [ArgInt 204]))
  /\ exists evs,
       trace (snd (getReadme scenario.no_content_world scenario.repo "master" initial))
       = trace initial ++ EvGet (readme_url scenario.repo "master") :: evs
       /\ creates evs = [] /\ writes evs = [] /\ requests evs = [].
Proof.
  apply (getReadme_fetch_failure_touches_no_file
           scenario.no_content_world scenario.repo "master" initial).
  reflexivity.
Defined.

Lemma getReadme_requests (w : World) (u : url.URL) (b : string) (st : State) :
  requests (trace (snd (getReadme w u b st)))
  = requests (trace st) ++ [readme_url u b].
Proof.
  unfold getReadme, parse_and_persist. unfold_calls. rewrite fetch_readme_run.
  assert (Hafter : requests (trace (after_fetch (readme_url u b) st))
                   = requests (trace st) ++ [readme_url u b]).
  { unfold after_fetch. cbn [trace]. now rewrite requests_app. }
  destruct (net_Get w (trace st) (readme_url u b)) as [resp|e];
    [|cbn [snd trace]; now rewrite requests_app].
  destruct (negb (Z.eqb (StatusCode resp) StatusOK)); [exact Hafter|].
  destruct (BodyErr resp); [exact Hafter|].
  destruct (goquery_NewDocumentFromReader w (Body resp));
    [|cbn [snd trace]; rewrite requests_app, Hafter; cbn; now rewrite app_nil_r].
  destruct (fs_Create w _ _);
    [cbn [snd trace]; rewrite requests_app, Hafter; cbn; now rewrite app_nil_r|].
  cbn [trace opened].
  destruct (fs_Write w _ _ _) as [[n e]|]; cbn [snd trace];
    rewrite !requests_app, Hafter; cbn; now rewrite !app_nil_r.
Qed.

(** X16.  When [getReadme] returns an error, whichever it is (the fetch,
    the creation of README.md or its writing), the run panics with it and
    requests no asset: its only request is the one of the README. *)
Theorem main_requests_no_asset_without_readme
        (w : World) (repoLink : string) (u : url.URL) (b : string) (st : State)
        (e : error) :
  fst (getReadme w u b (snd (os_MkdirAll w
         (filepath_Join w ["."; filepath_Base w (url.Path u)]) st)))
  = Return (err e) ->
  fst (mirror w repoLink u b st) = Panic e
  /\ requests (trace (snd (mirror w repoLink u b st)))
     = requests (trace st) ++ [readme_url u b].
Proof.
  intros H.
  assert (E : mirror w repoLink u b st
              = (Panic e,
                 snd (getReadme w u b (snd (os_MkdirAll w
                        (filepath_Join w ["."; filepath_Base w (url.Path u)]) st))))).
  { unfold mirror, bind. unfold os_MkdirAll in *. cbn [snd] in *.
    destruct (getReadme w u b _) as [[[doc|e']| |] st1]; cbn [fst] in H;
      try discriminate.
    injection H as ->. reflexivity. }
  rewrite E. cbn [fst snd]. split; [reflexivity|].
  rewrite getReadme_requests. unfold os_MkdirAll. cbn [snd trace].
  rewrite requests_app. cbn. now rewrite app_nil_r.
Qed.

Lemma main_requests_no_asset_without_readme_witness :
  fst (mirror scenario.no_content_world "https://github.com/u/r"
              scenario.repo "master" initial)
  = Panic (Errorf "failed to retrieve the README.md file, status code: %d"
                  [ArgInt 204])
  /\ requests (trace (snd (mirror scenario.no_content_world "https://github.com/u/r"
                             scenario.repo "master" initial)))
     = requests (trace initial) ++ [readme_url scenario.repo "master"].
Proof.
  apply (main_requests_no_asset_without_readme
           scenario.no_content_world "https://github.com/u/r" scenario.repo "master"
           initial).
  reflexivity.
Defined.
